(** * WhatsApp transcript pipeline: segmentation, windowing, keywords,
      system-message filtering, timestamp parsing and batched ingestion.

    Shallow embedding of [teste.py] (class [WhatsAppProcessor] and
    [create_whatsapp_database]), of the simple-mode filter of
    [rag.py] / [app.py] and of the batch loop of [app.py].

    Python [str] values are sequences of Unicode code points.  The
    character tables of the interpreter (white space, word characters,
    decimal digits, case mapping) are written out for Basic Latin and
    the Latin-1 Supplement (U+0000 to U+00FF), which is where the
    program's own phrase lists live; for code points above U+00FF they
    are taken from a record [unicode_db], a parameter of the whole
    development.  Exceptions are values of a [result] type; the loops
    of the program are folds over explicit states.

    The file has three parts: the program, the statements of the
    specification in its own words, and the properties. *)

From Stdlib Require Import String Ascii DecimalString DecimalNat.
From Stdlib Require Import Bool Arith NArith ZArith Lia List Permutation Sorted.
Import ListNotations.

Set Implicit Arguments.

(** ** Text *)

Definition cp := N.
Definition str := list cp.

(** UTF-8 decoding of a source literal, used only to write the
    program's string constants readably. *)
Fixpoint utf8_decode (fuel : nat) (bs : list N) : str :=
  match fuel with
  | O => []
  | S fuel' =>
    match bs with
    | [] => []
    | b :: r =>
      if (b <? 128)%N then b :: utf8_decode fuel' r
      else if (b <? 224)%N then
        match r with
        | b1 :: r' => ((b mod 32) * 64 + b1 mod 64)%N :: utf8_decode fuel' r'
        | _ => []
        end
      else if (b <? 240)%N then
        match r with
        | b1 :: b2 :: r' =>
            ((b mod 16) * 4096 + (b1 mod 64) * 64 + b2 mod 64)%N
              :: utf8_decode fuel' r'
        | _ => []
        end
      else
        match r with
        | b1 :: b2 :: b3 :: r' =>
            ((b mod 8) * 262144 + (b1 mod 64) * 4096
             + (b2 mod 64) * 64 + b3 mod 64)%N :: utf8_decode fuel' r'
        | _ => []
        end
    end
  end.

Definition u (s : string) : str :=
  let bs := map N_of_ascii (list_ascii_of_string s) in
  utf8_decode (List.length bs) bs.
Arguments u s%_string.

Definition cp_eqb (a b : cp) : bool := N.eqb a b.
Arguments cp_eqb (a b)%_N.

(** A character constant. *)
Definition chr (a : ascii) : cp := N_of_ascii a.
Arguments chr a%_char.

Fixpoint str_eqb (a b : str) : bool :=
  match a, b with
  | [], [] => true
  | x :: a', y :: b' => cp_eqb x y && str_eqb a' b'
  | _, _ => false
  end.

(** [s.startswith(p)]. *)
Fixpoint startswith (s p : str) : bool :=
  match p, s with
  | [], _ => true
  | y :: p', x :: s' => cp_eqb x y && startswith s' p'
  | _ :: _, [] => false
  end.

(** [p in s] on strings: substring test. *)
Fixpoint contains (s p : str) : bool :=
  startswith s p ||
  match s with
  | [] => false
  | _ :: s' => contains s' p
  end.

(** [x in l] on a list or set of strings. *)
Definition str_in (x : str) (l : list str) : bool := existsb (str_eqb x) l.

(** [sep.join(parts)]. *)
Fixpoint join (sep : str) (parts : list str) : str :=
  match parts with
  | [] => []
  | [p] => p
  | p :: rest => p ++ sep ++ join sep rest
  end.

(** The interpreter's Unicode tables above U+00FF. *)
Record unicode_db := {
  uni_isspace : cp -> bool;            (* str.isspace, regex \s *)
  uni_isword : cp -> bool;             (* regex \w *)
  uni_decimal : cp -> option Z;        (* regex \d with its digit value *)
  uni_lower : str -> str               (* str.lower on a string that
                                          leaves Latin-1 *)
}.

(** The tables with nothing above U+00FF: no white space, no word
    character, no digit, no case. *)
Definition latin1_db : unicode_db :=
  {| uni_isspace := fun _ => false;
     uni_isword := fun _ => false;
     uni_decimal := fun _ => None;
     uni_lower := fun s => s |}.

Definition between (lo hi c : cp) : bool := ((lo <=? c) && (c <=? hi))%N.
Arguments between (lo hi c)%_N.

Definition latin1_isspace (c : cp) : bool :=
  between 9 13 c || between 28 32 c || cp_eqb c 133 || cp_eqb c 160.

Definition latin1_isalpha (c : cp) : bool :=
  between 65 90 c || between 97 122 c
  || cp_eqb c 170 || cp_eqb c 181 || cp_eqb c 186
  || between 192 214 c || between 216 246 c || between 248 255 c.

(** Digits and other numerics of Latin-1: 0-9, superscripts 1 2 3 and
    the vulgar fractions. *)
Definition latin1_isnumeric (c : cp) : bool :=
  between 48 57 c || cp_eqb c 178 || cp_eqb c 179 || cp_eqb c 185
  || between 188 190 c.

Definition latin1_lower (c : cp) : cp :=
  if between 65 90 c || between 192 214 c || between 216 222 c
  then (c + 32)%N else c.

Section Text.

Variable U : unicode_db.

Definition isspace (c : cp) : bool :=
  if (c <? 256)%N then latin1_isspace c else uni_isspace U c.

(** [\w]: alphanumeric or underscore. *)
Definition isword (c : cp) : bool :=
  if (c <? 256)%N
  then latin1_isalpha c || latin1_isnumeric c || cp_eqb c 95
  else uni_isword U c.

(** [\d] and the value [int] gives the digit. *)
Definition decimal (c : cp) : option Z :=
  if (c <? 256)%N
  then if between 48 57 c then Some (Z.of_N c - 48)%Z else None
  else uni_decimal U c.

Definition isdigit (c : cp) : bool :=
  match decimal c with Some _ => true | None => false end.

Definition lower (s : str) : str :=
  if forallb (fun c => (c <? 256)%N) s then map latin1_lower s
  else uni_lower U s.

Fixpoint lstrip (s : str) : str :=
  match s with
  | c :: s' => if isspace c then lstrip s' else s
  | [] => []
  end.

Definition rstrip (s : str) : str := rev (lstrip (rev s)).

Definition strip (s : str) : str := rstrip (lstrip s).

End Text.

(** ** Regular expressions

    The patterns of the program, matched the way Python's [re] does:
    by backtracking, alternatives left to right, repetitions greedy.
    [rmatch] lists every way the pattern can match at a position, in
    the order the backtracking matcher tries them; its head is the
    match [re] reports.  Every repetition in the program's patterns
    ranges over a single character class, so [Rep] takes a class. *)

Inductive rx : Type :=
| Eps
| Chr (p : cp -> bool)
| Rep (p : cp -> bool) (lo : nat) (hi : option nat)
| Seq (a b : rx)
| Alt (a b : rx)
| Grp (a : rx)
| Bol                       (* ^ without MULTILINE *)
| Eol                       (* $ without MULTILINE *)
| Wb (isw : cp -> bool).    (* \b *)

(** A position: the character just consumed (if any) and what is left. *)
Definition pos := (option cp * str)%type.

(** Length of the run of class [p] at the head of [s], at most [cap]. *)
Fixpoint run_length (p : cp -> bool) (cap : option nat) (s : str) : nat :=
  match cap with
  | Some O => O
  | _ =>
    match s with
    | c :: s' =>
        if p c
        then S (run_length p (option_map Nat.pred cap) s')
        else O
    | [] => O
    end
  end.

Definition last_consumed (prev : option cp) (s : str) (k : nat) : option cp :=
  match k with
  | O => prev
  | S k' => nth_error s k'
  end.

(** The greedy choices of a repetition: longest first, down to [lo]. *)
Fixpoint rep_choices (prev : option cp) (s : str) (lo n : nat)
  : list (list str * pos) :=
  if n <? lo then []
  else ([], (last_consumed prev s n, skipn n s)) ::
       match n with
       | O => []
       | S n' => rep_choices prev s lo n'
       end.

Definition word_at (isw : cp -> bool) (c : option cp) : bool :=
  match c with Some x => isw x | None => false end.

Fixpoint rmatch (r : rx) (prev : option cp) (s : str)
  : list (list str * pos) :=
  match r with
  | Eps => [([], (prev, s))]
  | Chr p =>
      match s with
      | c :: s' => if p c then [([], (Some c, s'))] else []
      | [] => []
      end
  | Rep p lo hi => rep_choices prev s lo (run_length p hi s)
  | Seq a b =>
      flat_map
        (fun '(g1, (prev1, s1)) =>
           map (fun '(g2, q) => (g1 ++ g2, q)) (rmatch b prev1 s1))
        (rmatch a prev s)
  | Alt a b => rmatch a prev s ++ rmatch b prev s
  | Grp a =>
      map (fun '(g, (prev1, s1)) =>
             (firstn (List.length s - List.length s1) s :: g, (prev1, s1)))
          (rmatch a prev s)
  | Bol => match prev with None => [([], (prev, s))] | Some _ => [] end
  | Eol =>
      match s with
      | [] => [([], (prev, s))]
      | [c] => if cp_eqb c (chr "010") then [([], (prev, s))] else []
      | _ => []
      end
  | Wb isw =>
      if xorb (word_at isw prev) (word_at isw (hd_error s))
      then [([], (prev, s))] else []
  end.

(** [re.match(r, s)]: the groups and the unmatched rest. *)
Definition re_match (r : rx) (s : str) : option (list str * str) :=
  match rmatch r None s with
  | (g, (_, rest)) :: _ => Some (g, rest)
  | [] => None
  end.

(** [re.search(r, s)]: the leftmost match; its groups. *)
Fixpoint re_search_from (r : rx) (prev : option cp) (s : str)
  : option (list str) :=
  match rmatch r prev s with
  | (g, _) :: _ => Some g
  | [] =>
      match s with
      | c :: s' => re_search_from r (Some c) s'
      | [] => None
      end
  end.

Definition re_search (r : rx) (s : str) : option (list str) :=
  re_search_from r None s.

(** [re.findall(r, s)] for a pattern without groups that never matches
    the empty string: the matched substrings, left to right, not
    overlapping.  [skip] counts the characters of the last match still
    to step over. *)
Fixpoint findall_from (r : rx) (prev : option cp) (s : str) (skip : nat)
  : list str :=
  match s with
  | [] => []
  | c :: s' =>
      match skip with
      | S k => findall_from r (Some c) s' k
      | O =>
          match rmatch r prev s with
          | (_, (_, rest)) :: _ =>
              let n := List.length s - List.length rest in
              match n with
              | O => findall_from r (Some c) s' O
              | S k => firstn n s :: findall_from r (Some c) s' k
              end
          | [] => findall_from r (Some c) s' O
          end
      end
  end.

Definition re_findall (r : rx) (s : str) : list str :=
  findall_from r None s O.

(** [re.sub(r, repl, s)] for a pattern that never matches the empty
    string. *)
Fixpoint sub_from (r : rx) (repl : str) (prev : option cp) (s : str)
  (skip : nat) : str :=
  match s with
  | [] => []
  | c :: s' =>
      match skip with
      | S k => sub_from r repl (Some c) s' k
      | O =>
          match rmatch r prev s with
          | (_, (_, rest)) :: _ =>
              match List.length s - List.length rest with
              | O => c :: sub_from r repl (Some c) s' O
              | S k => repl ++ sub_from r repl (Some c) s' k
              end
          | [] => c :: sub_from r repl (Some c) s' O
          end
      end
  end.

Definition re_sub (r : rx) (repl s : str) : str := sub_from r repl None s O.

(** Pattern-building shorthands. *)
Definition lit (c : cp) : rx := Chr (cp_eqb c).
Fixpoint lits (s : str) : rx :=
  match s with
  | [] => Eps
  | [c] => lit c
  | c :: s' => Seq (lit c) (lits s')
  end.
Fixpoint seqs (rs : list rx) : rx :=
  match rs with
  | [] => Eps
  | [r] => r
  | r :: rs' => Seq r (seqs rs')
  end.
Fixpoint alts (rs : list rx) : rx :=
  match rs with
  | [] => Chr (fun _ => false)
  | [r] => r
  | r :: rs' => Alt r (alts rs')
  end.
(** [.] without DOTALL. *)
Definition dot : cp -> bool := fun c => negb (cp_eqb c (chr "010")).
Definition star (p : cp -> bool) : rx := Rep p 0 None.
Definition plus (p : cp -> bool) : rx := Rep p 1 None.

(** ** Exceptions *)

Inductive exn : Type := ValueError.

(** What a call that may raise gives: a value or the exception. *)
Inductive result (E A : Type) : Type :=
| Ok (a : A)
| Raise (e : E).
Arguments Ok {E A} a.
Arguments Raise {E A} e.

(** ** [datetime]

    Naive date-times as [datetime.datetime] holds them, with the range
    checks of its constructor and the proleptic Gregorian ordinal that
    its subtraction is built on. *)

Record datetime := {
  year : Z; month : Z; day : Z;
  hour : Z; minute : Z; second : Z; microsecond : Z
}.

Local Open Scope Z_scope.

Definition is_leap (y : Z) : bool :=
  (y mod 4 =? 0) && (negb (y mod 100 =? 0) || (y mod 400 =? 0)).

Definition days_in_month (y m : Z) : Z :=
  if m =? 2 then (if is_leap y then 29 else 28)
  else if (m =? 4) || (m =? 6) || (m =? 9) || (m =? 11) then 30
  else 31.

Definition days_before_year (y : Z) : Z :=
  let y1 := y - 1 in y1 * 365 + y1 / 4 - y1 / 100 + y1 / 400.

Definition days_before_month (y m : Z) : Z :=
  nth (Z.to_nat m)
      [0; 0; 31; 59; 90; 120; 151; 181; 212; 243; 273; 304; 334] 0
  + (if (2 <? m) && is_leap y then 1 else 0).

Definition toordinal (d : datetime) : Z :=
  days_before_year (year d) + days_before_month (year d) (month d) + day d.

(** Microseconds since the start of ordinal day 0. *)
Definition to_microseconds (d : datetime) : Z :=
  ((toordinal d * 24 + hour d) * 60 + minute d) * 60000000
  + second d * 1000000 + microsecond d.

(** [datetime(year, month, day, hour, minute, second, microsecond)]. *)
Definition make_datetime (y mo d h mi s us : Z) : result exn datetime :=
  if (1 <=? y) && (y <=? 9999)
     && (1 <=? mo) && (mo <=? 12)
     && (1 <=? d) && (d <=? days_in_month y mo)
     && (0 <=? h) && (h <=? 23)
     && (0 <=? mi) && (mi <=? 59)
     && (0 <=? s) && (s <=? 59)
     && (0 <=? us) && (us <=? 999999)
  then Ok {| year := y; month := mo; day := d;
             hour := h; minute := mi; second := s; microsecond := us |}
  else Raise ValueError.

(** [(a - b).total_seconds() / 3600 > 24].  The timedelta is an exact
    count of microseconds; 86400 s and 24 h are exact in binary
    floating point and the two divisions are monotone, with spacing far
    below one microsecond at that magnitude, so the comparison of the
    float quotient with 24 is the comparison of the microsecond count
    with 24 hours. *)
Definition gap_over_24h (current_time last_time : datetime) : bool :=
  24 * 3600 * 1000000 <? to_microseconds current_time - to_microseconds last_time.

Local Close Scope Z_scope.

(** ** [datetime.strptime]

    The part of CPython's [_strptime] the program's eight formats use:
    the format is turned into a regular expression (a run of white space
    in the format becomes [\s+], other characters are literals matched
    without regard to case, each directive becomes a named group), the
    expression is matched at the start of the text, text left over is
    an error, and the groups are converted to fields. *)

Section Strptime.

Variable U : unicode_db.

Let d_ := isdigit U.
Definition rng (lo hi : ascii) : cp -> bool := between (chr lo) (chr hi).
Arguments rng (lo hi)%_char.
Definition ch (c : ascii) : cp -> bool := cp_eqb (chr c).
Arguments ch c%_char.

Definition directive_regex (d : cp) : option rx :=
  if cp_eqb d (chr "d") then
    (* 3[0-1]|[1-2]\d|0[1-9]|[1-9]| [1-9] *)
    Some (alts [Seq (Chr (ch "3")) (Chr (rng "0" "1"));
                Seq (Chr (rng "1" "2")) (Chr d_);
                Seq (Chr (ch "0")) (Chr (rng "1" "9"));
                Chr (rng "1" "9");
                Seq (Chr (ch " ")) (Chr (rng "1" "9"))])
  else if cp_eqb d (chr "f") then
    (* [0-9]{1,6} *)
    Some (Rep (rng "0" "9") 1 (Some 6))
  else if cp_eqb d (chr "H") then
    (* 2[0-3]|[0-1]\d|\d *)
    Some (alts [Seq (Chr (ch "2")) (Chr (rng "0" "3"));
                Seq (Chr (rng "0" "1")) (Chr d_);
                Chr d_])
  else if cp_eqb d (chr "m") then
    (* 1[0-2]|0[1-9]|[1-9] *)
    Some (alts [Seq (Chr (ch "1")) (Chr (rng "0" "2"));
                Seq (Chr (ch "0")) (Chr (rng "1" "9"));
                Chr (rng "1" "9")])
  else if cp_eqb d (chr "M") then
    (* [0-5]\d|\d *)
    Some (alts [Seq (Chr (rng "0" "5")) (Chr d_); Chr d_])
  else if cp_eqb d (chr "S") then
    (* 6[0-1]|[0-5]\d|\d *)
    Some (alts [Seq (Chr (ch "6")) (Chr (rng "0" "1"));
                Seq (Chr (rng "0" "5")) (Chr d_);
                Chr d_])
  else if cp_eqb d (chr "y") then
    (* \d\d *)
    Some (Seq (Chr d_) (Chr d_))
  else if cp_eqb d (chr "Y") then
    (* \d\d\d\d *)
    Some (seqs [Chr d_; Chr d_; Chr d_; Chr d_])
  else None.

(** A literal of the format under IGNORECASE. *)
Definition lit_ci (c : cp) : rx :=
  Chr (fun x => cp_eqb (latin1_lower x) (latin1_lower c)).

(** The regular expression of a format and the directives of its
    groups, in order.  [in_ws] is set inside a run of white space. *)
Fixpoint format_regex (fmt : str) (in_ws : bool) : option (rx * list cp) :=
  match fmt with
  | [] => Some (Eps, [])
  | c :: rest =>
      if cp_eqb c (chr "%") then
        match rest with
        | d :: rest' =>
            match directive_regex d, format_regex rest' false with
            | Some r, Some (r', ds) => Some (Seq (Grp r) r', d :: ds)
            | _, _ => None
            end
        | [] => None
        end
      else if latin1_isspace c then
        match format_regex rest true with
        | Some (r', ds) =>
            Some (if in_ws then r' else Seq (plus (isspace U)) r', ds)
        | None => None
        end
      else
        match format_regex rest false with
        | Some (r', ds) => Some (Seq (lit_ci c) r', ds)
        | None => None
        end
  end.

(** [int(s)] on the text of a group: surrounding white space is
    ignored, every other character must be a decimal digit. *)
Fixpoint digits_value (acc : Z) (s : str) : option Z :=
  match s with
  | [] => Some acc
  | c :: s' =>
      match decimal U c with
      | Some v => digits_value (acc * 10 + v)%Z s'
      | None => None
      end
  end.

Definition py_int (s : str) : result exn Z :=
  match strip U s with
  | [] => Raise ValueError
  | t => match digits_value 0%Z t with
         | Some v => Ok v
         | None => Raise ValueError
         end
  end.

(** The fields before the date-time is built; [_strptime]'s defaults. *)
Record fields := {
  f_year : Z; f_month : Z; f_day : Z;
  f_hour : Z; f_minute : Z; f_second : Z; f_fraction : Z
}.

Definition default_fields : fields :=
  {| f_year := 1900; f_month := 1; f_day := 1;
     f_hour := 0; f_minute := 0; f_second := 0; f_fraction := 0 |}.

Definition set_field (d : cp) (text : str) (f : fields) : result exn fields :=
  match py_int text with
  | Raise e => Raise e
  | Ok v =>
    Ok (
    if cp_eqb d (chr "y") then
      (* values 69-99 are 1969-1999, values 0-68 are 2000-2068 *)
      {| f_year := if (v <=? 68)%Z then (v + 2000)%Z else (v + 1900)%Z;
         f_month := f_month f; f_day := f_day f; f_hour := f_hour f;
         f_minute := f_minute f; f_second := f_second f;
         f_fraction := f_fraction f |}
    else if cp_eqb d (chr "Y") then
      {| f_year := v;
         f_month := f_month f; f_day := f_day f; f_hour := f_hour f;
         f_minute := f_minute f; f_second := f_second f;
         f_fraction := f_fraction f |}
    else if cp_eqb d (chr "m") then
      {| f_year := f_year f; f_month := v; f_day := f_day f;
         f_hour := f_hour f; f_minute := f_minute f;
         f_second := f_second f; f_fraction := f_fraction f |}
    else if cp_eqb d (chr "d") then
      {| f_year := f_year f; f_month := f_month f; f_day := v;
         f_hour := f_hour f; f_minute := f_minute f;
         f_second := f_second f; f_fraction := f_fraction f |}
    else if cp_eqb d (chr "H") then
      {| f_year := f_year f; f_month := f_month f; f_day := f_day f;
         f_hour := v; f_minute := f_minute f;
         f_second := f_second f; f_fraction := f_fraction f |}
    else if cp_eqb d (chr "M") then
      {| f_year := f_year f; f_month := f_month f; f_day := f_day f;
         f_hour := f_hour f; f_minute := v;
         f_second := f_second f; f_fraction := f_fraction f |}
    else if cp_eqb d (chr "S") then
      {| f_year := f_year f; f_month := f_month f; f_day := f_day f;
         f_hour := f_hour f; f_minute := f_minute f;
         f_second := v; f_fraction := f_fraction f |}
    else (* %f: the digits padded on the right with zeros to six *)
      {| f_year := f_year f; f_month := f_month f; f_day := f_day f;
         f_hour := f_hour f; f_minute := f_minute f;
         f_second := f_second f;
         f_fraction := (v * 10 ^ (6 - Z.of_nat (List.length text)))%Z |})
  end.

Fixpoint set_fields (ds : list cp) (groups : list str) (f : fields)
  : result exn fields :=
  match ds, groups with
  | d :: ds', g :: groups' =>
      match set_field d g f with
      | Ok f' => set_fields ds' groups' f'
      | Raise e => Raise e
      end
  | _, _ => Ok f
  end.

Definition strptime (data_string format : str) : result exn datetime :=
  match format_regex format false with
  | None => Raise ValueError
  | Some (r, ds) =>
      match re_match r data_string with
      | None => Raise ValueError
      | Some (groups, rest) =>
          match rest with
          | _ :: _ => Raise ValueError        (* unconverted data remains *)
          | [] =>
              match set_fields ds groups default_fields with
              | Raise e => Raise e
              | Ok f =>
                  make_datetime (f_year f) (f_month f) (f_day f)
                                (f_hour f) (f_minute f) (f_second f)
                                (f_fraction f)
              end
          end
      end
  end.

End Strptime.

(** ** [WhatsAppProcessor.parse_timestamp] *)

Section ParseTimestamp.

Variable U : unicode_db.


Definition formats : list str :=
  [ u "%d/%m/%Y, %H:%M";
    u "%d/%m/%y, %H:%M";
    u "%m/%d/%Y, %H:%M";
    u "%Y-%m-%d %H:%M:%S";
    u "%d-%m-%Y %H:%M";
    u "%d/%m/%Y %H:%M:%S";
    u "%Y-%m-%dT%H:%M:%S";
    u "%Y-%m-%dT%H:%M:%S.%f" ].

(** The loop over the formats: the first one that parses wins, a
    [ValueError] moves on to the next. *)
Fixpoint try_formats (text : str) (fmts : list str) : option datetime :=
  match fmts with
  | [] => None
  | fmt :: rest =>
      match strptime U text fmt with
      | Ok d => Some d
      | Raise ValueError => try_formats text rest
      end
  end.

Definition slash_or_dash : cp -> bool :=
  fun c => cp_eqb c (chr "/") || cp_eqb c (chr "-").

(** [(\d{1,2})[/\-](\d{1,2})[/\-](\d{2,4})] *)
Definition date_pattern : rx :=
  seqs [Grp (Rep (isdigit U) 1 (Some 2)); Chr slash_or_dash;
        Grp (Rep (isdigit U) 1 (Some 2)); Chr slash_or_dash;
        Grp (Rep (isdigit U) 2 (Some 4))].

(** [(\d{1,2}):(\d{2})] *)
Definition time_pattern : rx :=
  seqs [Grp (Rep (isdigit U) 1 (Some 2)); lit (chr ":");
        Grp (Rep (isdigit U) 2 (Some 2))].

(** [map(int, groups)] *)
Fixpoint ints (groups : list str) : result exn (list Z) :=
  match groups with
  | [] => Ok []
  | g :: rest =>
      match py_int U g, ints rest with
      | Ok v, Ok vs => Ok (v :: vs)
      | Raise e, _ => Raise e
      | _, Raise e => Raise e
      end
  end.

(** The regex fallback, lines 65 to 78: [None] when a pattern is not
    found or when building the date-time raises [ValueError]. *)
Definition fallback (timestamp_str : str) : option datetime :=
  match re_search date_pattern timestamp_str,
        re_search time_pattern timestamp_str with
  | Some dg, Some tg =>
      match ints dg, ints tg with
      | Ok [day; month; year], Ok [hour; minute] =>
          let year := if (year <? 100)%Z then (year + 2000)%Z else year in
          match make_datetime year month day hour minute 0 0 with
          | Ok d => Some d
          | Raise ValueError => None
          end
      | _, _ => None
      end
  | _, _ => None
  end.

Definition parse_timestamp (timestamp_str : str) : option datetime :=
  match timestamp_str with
  | [] => None
  | _ =>
      match try_formats (strip U timestamp_str) formats with
      | Some d => Some d
      | None => fallback timestamp_str
      end
  end.

End ParseTimestamp.

(** ** Messages *)

(** A record of the transcript as [json.load] gives it; a key may be
    missing, [item.get] then supplies the default. *)
Record raw_item := {
  item_author : option str;
  item_message : option str;
  item_timestamp : option str
}.

(** A normalised message, the dict built at lines 285 to 291. *)
Record msg := {
  author : str;
  message : str;
  original_message : str;
  timestamp : str;
  index : nat
}.

(** [set(xs)] for strings, as far as [len] and [in] see it: the distinct
    elements, each added the first time it is met. *)
Definition set_add (s : list str) (x : str) : list str :=
  if str_in x s then s else s ++ [x].

Definition set_of (xs : list str) : list str := fold_left set_add xs [].

(** [l[-n:]] for a positive [n]. *)
Definition last_n {A} (n : nat) (l : list A) : list A :=
  skipn (List.length l - n) l.

(** [l[-1]] *)
Definition py_last {A} (l : list A) : option A :=
  nth_error l (List.length l - 1).

(** [l[i:j]] for [0 <= i <= j]. *)
Definition slice {A} (l : list A) (i j : nat) : list A :=
  firstn (j - i) (skipn i l).

(** [range(0, stop, step)] for a positive [step]. *)
Definition py_range (stop step : nat) : list nat :=
  map (fun k => k * step) (seq 0 ((stop + step - 1) / step)).

(** ** [WhatsAppProcessor.detect_conversation_boundaries_conservative] *)

Section BoundaryDetector.

Variable U : unicode_db.

(** Lines 126 to 147: the value of [should_split] when the test of line
    149 reads it. *)
Definition should_split (current_conversation : list msg)
  (last_msg message : msg) : bool :=
  let current_time := parse_timestamp U (timestamp message) in
  let last_time := parse_timestamp U (timestamp last_msg) in
  let should_split := false in
  (* 1. gap of more than 24 hours *)
  let should_split :=
    match current_time, last_time with
    | Some c, Some l => if gap_over_24h c l then true else should_split
    | _, _ => should_split
    end in
  (* 2. more than 100 messages *)
  let should_split :=
    if 100 <? List.length current_conversation then true else should_split in
  (* 3. drastic change of participants *)
  let recent_authors := set_of (map author (last_n 20 current_conversation)) in
  let should_split :=
    if (2 <? List.length recent_authors)
       && negb (str_in (author message) recent_authors)
    then true else should_split in
  should_split.

(** The loop state: the conversations emitted so far and the one being
    accumulated. *)
Definition detector_state := (list (list msg) * list msg)%type.

(** One turn of the loop of line 118. *)
Definition detector_step (st : detector_state) (message : msg)
  : detector_state :=
  let '(conversations, current_conversation) := st in
  match py_last current_conversation with
  | None => (conversations, current_conversation ++ [message])
  | Some last_msg =>
      if should_split current_conversation last_msg message
         && (5 <=? List.length current_conversation)
      then (conversations ++ [current_conversation], [message])
      else (conversations, current_conversation ++ [message])
  end.

Definition detector_run (messages : list msg) : detector_state :=
  fold_left detector_step messages ([], []).

Definition detect_conversation_boundaries_conservative
  (messages : list msg) : list (list msg) :=
  match messages with
  | [] => []
  | _ =>
      let '(conversations, current_conversation) := detector_run messages in
      if 5 <=? List.length current_conversation
      then conversations ++ [current_conversation]
      else conversations
  end.

End BoundaryDetector.

(** ** [WhatsAppProcessor.create_overlapping_chunks]

    [chunk_size] and [overlap] are natural numbers.  Equal values make
    the step of [range] zero, which raises; a larger [overlap] makes it
    negative, and the range is empty. *)

Definition chunk_loop (messages : list msg) (chunk_size : nat)
  (chunks : list (list msg)) (i : nat) : list (list msg) :=
  let chunk := slice messages i (i + chunk_size) in
  if 5 <=? List.length chunk then chunks ++ [chunk] else chunks.

Definition create_overlapping_chunks (messages : list msg)
  (chunk_size overlap : nat) : result exn (list (list msg)) :=
  match messages with
  | [] => Ok []
  | _ =>
      if chunk_size =? overlap then Raise ValueError
      else if chunk_size <? overlap then Ok []
      else Ok (fold_left (chunk_loop messages chunk_size)
                         (py_range (List.length messages)
                                   (chunk_size - overlap))
                         [])
  end.

(** The call of line 307. *)
Definition overlap_windows (messages : list msg)
  : result exn (list (list msg)) :=
  create_overlapping_chunks messages 40 15.

(** ** [WhatsAppProcessor.extract_keywords] *)


Definition stopwords : list str :=
  map u
  [ "de"; "a"; "o"; "que"; "e"; "do"; "da"; "em"; "um"; "para"; "é"; "com";
    "não"; "uma"; "os"; "no"; "se"; "na"; "por"; "mais"; "as"; "dos";
    "como"; "mas"; "foi"; "ao"; "ele"; "das"; "tem"; "à"; "seu"; "sua";
    "ou"; "ser"; "quando"; "muito"; "nos"; "já"; "eu"; "também"; "só";
    "pelo"; "pela"; "até"; "isso"; "ela"; "entre"; "era"; "depois"; "sem";
    "mesmo"; "aos"; "ter"; "seus"; "suas"; "você"; "vocês"; "meu"; "minha";
    "nosso"; "nossa"; "dele"; "dela"; "vou"; "vai"; "vamos"; "então";
    "aqui"; "lá"; "onde"; "porque"; "ainda"; "bem"; "só"; "sim"; "não";
    "né"; "ok"; "kkk"; "kkkk"; "rs"; "rsrs" ]%string.

(** [word_count[word] += 1] on a [defaultdict(int)]: the keys stay in
    the order of their first insertion. *)
Fixpoint increment (word : str) (word_count : list (str * nat))
  : list (str * nat) :=
  match word_count with
  | [] => [(word, 1)]
  | (k, n) :: rest =>
      if str_eqb k word then (k, S n) :: rest
      else (k, n) :: increment word rest
  end.

Definition count_step (word_count : list (str * nat)) (word : str)
  : list (str * nat) :=
  if (2 <? List.length word) && negb (str_in word stopwords)
  then increment word word_count
  else word_count.

(** [sorted(xs, key=..., reverse=True)]: descending by key and stable,
    equal keys stay in their original order. *)
Fixpoint insert_desc {A} (key : A -> nat) (x : A) (sorted : list A) : list A :=
  match sorted with
  | [] => [x]
  | y :: rest =>
      if key x <=? key y then y :: insert_desc key x rest
      else x :: sorted
  end.

Definition sorted_desc {A} (key : A -> nat) (xs : list A) : list A :=
  fold_left (fun sorted x => insert_desc key x sorted) xs [].

Section Keywords.

Variable U : unicode_db.

(** [\b\w+\b] *)
Definition word_pattern : rx :=
  seqs [Wb (isword U); plus (isword U); Wb (isword U)].

Definition extract_keywords (text : str) : list str :=
  let words := re_findall word_pattern (lower U text) in
  let word_count := fold_left count_step words [] in
  map fst (sorted_desc snd word_count).

End Keywords.

(** ** [WhatsAppProcessor.is_system_message], [clean_message] and the
       filtering loop of [create_whatsapp_database] *)

Definition system_messages : list str :=
  map u
  [ "mensagem apagada"; "media omitted"; "audio omitted"; "image omitted";
    "document omitted"; "video omitted"; "sticker omitted"; "gif omitted";
    "contact card omitted"; "location omitted"; "você foi adicionado";
    "saiu"; "entrou no grupo"; "mudou o assunto"; "mudou a descrição";
    "criou o grupo"; "removeu"; "adicionado"; "chamada de voz";
    "chamada de vídeo"; "perdida"; "ocupado"; "rejeitada" ]%string.

Section Normalizer.

Variable U : unicode_db.

Definition system_patterns : list rx :=
  [ (* ^\s*\[.*\]\s*$ *)
    seqs [Bol; star (isspace U); lit (chr "["); star dot; lit (chr "]");
          star (isspace U); Eol];
    (* ^chamada (perdida|rejeitada)$ *)
    seqs [Bol; lits (u "chamada ");
          Grp (Alt (lits (u "perdida")) (lits (u "rejeitada"))); Eol];
    (* ^você foi adicionado$ *)
    seqs [Bol; lits (u "você foi adicionado"); Eol];
    (* ^.* saiu$ *)
    seqs [Bol; star dot; lits (u " saiu"); Eol];
    (* ^.* mudou .*para.*$ *)
    seqs [Bol; star dot; lits (u " mudou "); star dot; lits (u "para");
          star dot; Eol] ].

Definition matches (pattern : rx) (s : str) : bool :=
  match re_match pattern s with Some _ => true | None => false end.

Definition is_system_message (message : str) : bool :=
  match message with
  | [] => true
  | _ =>
      if List.length (strip U message) <? 2 then true
      else
        let message_lower := strip U (lower U message) in
        if existsb (fun sys_msg => str_eqb message_lower sys_msg
                                   || startswith message_lower sys_msg)
                   system_messages
        then true
        else existsb (fun pattern => matches pattern message_lower)
                     system_patterns
  end.

(** [[\x00-\x08\x0b\x0c\x0e-\x1f\x7f]] *)
Definition control_char : cp -> bool :=
  fun c => between 0 8 c || cp_eqb c 11 || cp_eqb c 12
           || between 14 31 c || cp_eqb c 127.

(** [http[s]?://[^\s]{100,}] *)
Definition long_url : rx :=
  seqs [lits (u "http"); Rep (cp_eqb (chr "s")) 0 (Some 1); lits (u "://");
        Rep (fun c => negb (isspace U c)) 100 None].

Definition clean_message (message : str) : str :=
  match message with
  | [] => []
  | _ =>
      let message := re_sub (Chr control_char) [] message in
      let message := re_sub (plus (isspace U)) (u " ") message in
      let message :=
        if (200 <? List.length message) && contains message (u "http")
        then re_sub long_url (u "[link_longo]") message
        else message in
      strip U message
  end.

Definition get (field : option str) (default : str) : str :=
  match field with Some v => v | None => default end.

(** One turn of the filtering loop of lines 266 to 291 on item number
    [i]: the message kept, if any. *)
Definition filter_item (i : nat) (item : raw_item) : option msg :=
  let author := get (item_author item) (u "Desconhecido") in
  let message := strip U (get (item_message item) []) in
  let timestamp := get (item_timestamp item) [] in
  if List.length message <? 1 then None
  else if is_system_message message then None
  else Some {| author := author;
               message := clean_message message;
               original_message := message;
               timestamp := timestamp;
               index := i |}.

Fixpoint filter_from (i : nat) (data : list raw_item) : list msg :=
  match data with
  | [] => []
  | item :: rest =>
      match filter_item i item with
      | Some m => m :: filter_from (S i) rest
      | None => filter_from (S i) rest
      end
  end.

(** [valid_messages] of [create_whatsapp_database]. *)
Definition valid_messages (data : list raw_item) : list msg :=
  filter_from 0 data.

(** The simple mode of [rag.py] and [app.py] ([preprocess_whatsapp_data]):
    a message shorter than 3 characters is skipped, and so is one that
    contains one of six phrases anywhere. *)
Definition simple_system_messages : list str :=
  map u [ "mensagem apagada"; "media omitted"; "audio omitted";
          "image omitted"; "document omitted"; "video omitted" ]%string.

Definition preprocess_item (i : nat) (item : raw_item) : option msg :=
  let author := get (item_author item) (u "Desconhecido") in
  let message := strip U (get (item_message item) []) in
  let timestamp := get (item_timestamp item) [] in
  if List.length message <? 3 then None
  else if existsb (fun sys_msg => contains (lower U message) sys_msg)
                  simple_system_messages
  then None
  else Some {| author := author;
               message := message;
               original_message := message;
               timestamp := timestamp;
               index := i |}.

End Normalizer.

(** ** Documents: lines 317 to 409 of [create_whatsapp_database] *)

(** [str(n)] for a natural number. *)
Definition str_of_nat (n : nat) : str :=
  map N_of_ascii (list_ascii_of_string (NilZero.string_of_uint (Nat.to_uint n))).

(** [%0wd]: decimal, padded on the left with zeros to width [w]. *)
Definition zero_padded (w : nat) (n : Z) : str :=
  let digits := str_of_nat (Z.to_nat n) in
  repeat (chr "0") (w - List.length digits) ++ digits.

(** [str(d)] for a [datetime]: ISO format with a space, the
    microseconds only when they are not zero. *)
Definition str_of_datetime (d : datetime) : str :=
  zero_padded 4 (year d) ++ u "-" ++ zero_padded 2 (month d) ++ u "-"
  ++ zero_padded 2 (day d) ++ u " " ++ zero_padded 2 (hour d) ++ u ":"
  ++ zero_padded 2 (minute d) ++ u ":" ++ zero_padded 2 (second d)
  ++ (if (microsecond d =? 0)%Z then []
      else u "." ++ zero_padded 6 (microsecond d)).

Inductive doc_type : Type := conversation | chunk.

Record metadata := {
  type : doc_type;
  doc_id : str;
  participants : str;
  message_count : nat;
  keywords : str;
  start_time : option str;     (* only on conversations *)
  end_time : option str
}.

Record Document := {
  page_content : str;
  doc_metadata : metadata
}.

Section DocumentBuilder.

Variable U : unicode_db.

(** [list(set(xs))]: the order in which iterating over the set gives the
    elements added in the order [xs].  CPython orders a set of strings
    by their hashes, which are salted per process, so the order is a
    parameter here. *)
Variable list_of_set : list str -> list str.

(** [list(set([msg['author'] for msg in unit]))], as at lines 330 and
    377 (and in [rag.py] and [app.py]). *)
Definition participants_list (unit : list msg) : list str :=
  list_of_set (map author unit).

(** The value stored under ['participants']. *)
Definition participants_of (unit : list msg) : str :=
  join (u ", ") (participants_list unit).

(** [f"[{timestamp}] {author}: {content}"] *)
Definition message_line (m : msg) : str :=
  u "[" ++ timestamp m ++ u "] " ++ author m ++ u ": " ++ message m.

Fixpoint somes {A} (l : list (option A)) : list A :=
  match l with
  | [] => []
  | Some a :: rest => a :: somes rest
  | None :: rest => somes rest
  end.

Definition conversation_document (doc_id : nat) (conv : list msg) : Document :=
  let participants := participants_list conv in
  let timestamps := map (fun m => parse_timestamp U (timestamp m)) conv in
  let valid_timestamps := somes timestamps in
  let all_text := join (u " ") (map message conv) in
  let keywords := extract_keywords U all_text in
  let context_lines :=
    [ u "=== CONVERSA NATURAL #" ++ str_of_nat doc_id ++ u " ===";
      u "Participantes: " ++ join (u ", ") participants;
      u "Mensagens: " ++ str_of_nat (List.length conv);
      u "Palavras-chave: " ++ join (u ", ") (firstn 8 keywords);
      [] ] ++ map message_line conv in
  {| page_content := join [chr "010"] context_lines;
     doc_metadata :=
       {| type := conversation;
          doc_id := str_of_nat doc_id;
          participants := join (u ", ") participants;
          message_count := List.length conv;
          keywords := join (u ", ") (firstn 10 keywords);
          start_time :=
            Some (match valid_timestamps with
                  | t :: _ => str_of_datetime t
                  | [] => []
                  end);
          end_time :=
            Some (match py_last valid_timestamps with
                  | Some t => str_of_datetime t
                  | None => []
                  end) |} |}.

Definition chunk_document (doc_id : nat) (chunk_ : list msg) : Document :=
  let participants := participants_list chunk_ in
  let all_text := join (u " ") (map message chunk_) in
  let keywords := extract_keywords U all_text in
  let context_lines :=
    [ u "=== CHUNK #" ++ str_of_nat doc_id ++ u " ===";
      u "Participantes: " ++ join (u ", ") participants;
      u "Mensagens: " ++ str_of_nat (List.length chunk_);
      u "Palavras-chave: " ++ join (u ", ") (firstn 5 keywords);
      [] ] ++ map message_line chunk_ in
  {| page_content := join [chr "010"] context_lines;
     doc_metadata :=
       {| type := chunk;
          doc_id := str_of_nat doc_id;
          participants := join (u ", ") participants;
          message_count := List.length chunk_;
          keywords := join (u ", ") (firstn 10 keywords);
          start_time := None;
          end_time := None |} |}.

(** The two loops, sharing [documents] and the counter [doc_id]. *)
Definition add_conversation (st : list Document * nat) (conv : list msg)
  : list Document * nat :=
  let '(documents, doc_id) := st in
  if List.length conv <? 5 then st
  else (documents ++ [conversation_document doc_id conv], S doc_id).

Definition add_chunk (st : list Document * nat) (chunk_ : list msg)
  : list Document * nat :=
  let '(documents, doc_id) := st in
  (documents ++ [chunk_document doc_id chunk_], S doc_id).

Definition build_documents (conversations chunks : list (list msg))
  : list Document :=
  fst (fold_left add_chunk chunks
         (fold_left add_conversation conversations ([], 0))).

End DocumentBuilder.

(** ** Batched submission to the vector store

    The store is an external collaborator.  [from_documents] creates it
    from a first batch or raises; [add_documents] works on the handle in
    place and may raise, so it gives the store as the call leaves it
    together with the exception, if any. *)

Section Ingestion.

Variable D : Type.        (* documents *)
Variable S_ : Type.       (* the store behind the handle *)
Variable E : Type.        (* what a store call may raise *)

Variable from_documents : list D -> result E S_.
Variable add_documents : S_ -> list D -> S_ * option E.

(** What the functions print while they submit. *)
Inductive log_line : Type :=
| LogConfig (total_docs batch_size total_batches : nat)
| LogCreating
| LogCreated
| LogCreateError (e : E)
| LogBatch (number total first_doc last_doc : nat)
| LogProgress (number total : nat)
| LogBatchError (number : nat) (e : E)
| LogLote (number done total_docs : nat)
| LogSuccess.

(** *** [create_whatsapp_database], lines 424 to 487 ([teste.py]) *)

Definition batch_size : nat := 10.

(** One turn of the loop of line 448. *)
Definition batch_step (documents : list D) (total_batches : nat)
  (st : S_ * list log_line) (batch_num : nat) : S_ * list log_line :=
  let '(vector_db, printed) := st in
  let start_idx := batch_num * batch_size in
  let end_idx := Nat.min (start_idx + batch_size) (List.length documents) in
  let printed :=
    printed ++ [LogBatch (batch_num + 1) total_batches start_idx (end_idx - 1)] in
  match add_documents vector_db (slice documents start_idx end_idx) with
  | (vector_db, None) =>
      (vector_db, printed ++ [LogProgress (batch_num + 1) total_batches])
  | (vector_db, Some e) =>
      (vector_db, printed ++ [LogBatchError (batch_num + 1) e])
  end.

(** What the function returns ([None] or the handle) and what it
    printed.  The closing search test of lines 471 to 485 sits in its
    own [try] and changes neither. *)
Definition store_in_batches (documents : list D)
  : option S_ * list log_line :=
  let total_batches := (List.length documents + batch_size - 1) / batch_size in
  let printed :=
    [LogConfig (List.length documents) batch_size total_batches; LogCreating] in
  match from_documents (slice documents 0 batch_size) with
  | Raise e => (None, printed ++ [LogCreateError e])
  | Ok vector_db =>
      let printed := printed ++ [LogCreated] in
      let '(vector_db, printed) :=
        fold_left (batch_step documents total_batches)
                  (seq 1 (total_batches - 1)) (vector_db, printed) in
      (Some vector_db, printed ++ [LogSuccess])
  end.

(** *** [create_vector_database_with_logging] ([app.py]) *)

Definition app_batch_size : nat := 5.

(** [range(start, stop, step)] for a positive [step]. *)
Definition py_range_from (start stop step : nat) : list nat :=
  map (fun k => start + k * step) (seq 0 ((stop - start + step - 1) / step)).

Definition app_batch_step (documents : list D)
  (st : S_ * list log_line) (i : nat) : S_ * list log_line :=
  let '(vector_db, printed) := st in
  let total_docs := List.length documents in
  let number := i / app_batch_size + 1 in
  let printed := printed ++ [LogLote number i total_docs] in
  match add_documents vector_db (slice documents i (i + app_batch_size)) with
  | (vector_db, None) => (vector_db, printed)
  | (vector_db, Some e) => (vector_db, printed ++ [LogBatchError number e])
  end.

(** The creation call is not guarded here: its exception leaves the
    function. *)
Definition create_vector_database_with_logging (documents : list D)
  : result E S_ * list log_line :=
  let total_docs := List.length documents in
  let printed := [LogCreating; LogLote 1 0 total_docs] in
  match from_documents (slice documents 0 app_batch_size) with
  | Raise e => (Raise e, printed)
  | Ok vector_db =>
      let '(vector_db, printed) :=
        fold_left (app_batch_step documents)
                  (py_range_from app_batch_size total_docs app_batch_size)
                  (vector_db, printed) in
      (Ok vector_db, printed ++ [LogSuccess])
  end.

End Ingestion.

Arguments LogConfig {E}.
Arguments LogCreating {E}.
Arguments LogCreated {E}.
Arguments LogCreateError {E}.
Arguments LogBatch {E}.
Arguments LogProgress {E}.
Arguments LogBatchError {E}.
Arguments LogLote {E}.
Arguments LogSuccess {E}.

(** ** [create_whatsapp_database]: the whole run on a loaded transcript *)


Section Pipeline.

Variable U : unicode_db.
Variable list_of_set : list str -> list str.
Variable S_ E : Type.
Variable from_documents : list Document -> result E S_.
Variable add_documents : S_ -> list Document -> S_ * option E.

Definition pipeline_documents (data : list raw_item) : list Document :=
  let valid := valid_messages U data in
  let conversations := detect_conversation_boundaries_conservative U valid in
  let chunks :=
    match overlap_windows valid with
    | Ok chunks => chunks
    | Raise _ => []
    end in
  build_documents U list_of_set conversations chunks.


End Pipeline.

(** ** A store stub that fails on chosen calls

    The stub holds the documents it accepted and counts the calls made
    to it, the creation being call 1; a call whose number [fails]
    selects raises and stores nothing. *)

Record stub_store (D : Type) := {
  held : list D;
  calls : nat
}.

Inductive stub_error : Type := StubFailure (call : nat).

Definition stub_from_documents {D} (fails : nat -> bool) (docs : list D)
  : result stub_error (stub_store D) :=
  if fails 1 then Raise (StubFailure 1)
  else Ok {| held := docs; calls := 1 |}.

Definition stub_add_documents {D} (fails : nat -> bool) (s : stub_store D)
  (docs : list D) : stub_store D * option stub_error :=
  let k := S (calls s) in
  if fails k
  then ({| held := held s; calls := k |}, Some (StubFailure k))
  else ({| held := held s ++ docs; calls := k |}, None).

(** The lines an ingestion printed for batches that failed. *)
Definition batch_errors {E} (printed : list (log_line E)) : list (log_line E) :=
  filter (fun l => match l with LogBatchError _ _ => true | _ => false end)
         printed.

(** The batch numbers announced, in order. *)
Fixpoint announced {E} (printed : list (log_line E)) : list nat :=
  match printed with
  | [] => []
  | LogBatch k _ _ _ :: rest => k :: announced rest
  | LogLote k _ _ :: rest => k :: announced rest
  | _ :: rest => announced rest
  end.

(** * [rag.py] and [app.py]: the simple mode

    [create_conversation_context] and [clean_message] are the same
    text in both files; [app.py] is given after [rag.py] and uses its
    definitions for them. *)

Module Rag.

(** [messages[0]] on an empty list. *)
Inductive index_error : Type := IndexError.

(** The documents of the simple mode: the text and the five metadata
    keys. *)
Record Document := {
  page_content : str;
  conversation_id : str;
  start_time : str;
  end_time : str;
  message_count : nat;
  participants : str
}.

Section Simple.

Variable U : unicode_db.
Variable list_of_set : list str -> list str.

(** [[^\w\s\.,!?;:()\-áàâãéèêíïóôõöúçñ]] *)
Definition kept_punctuation : str := u ".,!?;:()-áàâãéèêíïóôõöúçñ".

Definition special_char (c : cp) : bool :=
  negb (isword U c || isspace U c || existsb (cp_eqb c) kept_punctuation).

(** [clean_message], lines 164 to 170. *)
Definition clean_message (message : str) : str :=
  let message := re_sub (Chr special_char) (u " ") message in
  let message := re_sub (plus (isspace U)) (u " ") message in
  strip U message.

(** One turn of the loop of line 152: a message whose cleaned text is
    empty adds no line. *)
Definition context_line (context_lines : list str) (m : msg) : list str :=
  match clean_message (message m) with
  | [] => context_lines
  | cleaned_message =>
      context_lines
      ++ [u "[" ++ timestamp m ++ u "] " ++ author m ++ u ": "
          ++ cleaned_message]
  end.

(** [create_conversation_context], lines 137 to 162. *)
Definition create_conversation_context (messages : list msg) (conv_id : nat)
  : result index_error str :=
  let participants := list_of_set (map author messages) in
  match messages with
  | [] => Raise IndexError
  | first :: _ =>
      let start_time := timestamp first in
      let context_lines :=
        [ u "=== CONVERSA #" ++ str_of_nat conv_id ++ u " ===";
          u "Participantes: " ++ join (u ", ") participants;
          u "Início: " ++ start_time;
          u "Número de mensagens: " ++ str_of_nat (List.length messages);
          [] ] in
      Ok (join [chr "010"] (fold_left context_line messages context_lines))
  end.

(** The [Document(...)] built at lines 76 to 91 and again at lines 107
    to 122 (in [app.py] at lines 93 to 106 and 112 to 125). *)
Definition make_document (conversation_window : list msg)
  (conversation_id : nat) : result index_error Document :=
  match create_conversation_context conversation_window conversation_id with
  | Raise e => Raise e
  | Ok conversation_text =>
      let participants := list_of_set (map author conversation_window) in
      let participants_str := join (u ", ") participants in
      match conversation_window, py_last conversation_window with
      | first :: _, Some last =>
          Ok {| page_content := conversation_text;
                conversation_id := str_of_nat conversation_id;
                start_time := timestamp first;
                end_time := timestamp last;
                message_count := List.length conversation_window;
                participants := participants_str |}
      | _, _ => Raise IndexError
      end
  end.

(** [should_start_new_conversation], lines 127 to 135: the two times
    are not looked at. *)
Definition should_start_new_conversation (last_time current_time : str)
  (window_size : nat) : bool :=
  if 20 <? window_size then true else false.

(** The state of the loop of line 46. *)
Record state := {
  documents : list Document;
  conversation_window : list msg;
  last_timestamp : option str;
  next_id : nat                     (* conversation_id *)
}.

(** Lines 71 to 94: a new conversation starts when there is a previous
    timestamp, not empty, and [should_start_new_conversation] says so;
    the window is then emptied, after a document was made of it if it
    has at least 3 messages. *)
Definition start_new (st : state) (current_time : str)
  : result index_error state :=
  match last_timestamp st with
  | Some (c :: rest) =>
      if should_start_new_conversation (c :: rest) current_time
           (List.length (conversation_window st))
      then
        if 3 <=? List.length (conversation_window st)
        then
          match make_document (conversation_window st) (next_id st) with
          | Raise e => Raise e
          | Ok d =>
              Ok {| documents := documents st ++ [d];
                    conversation_window := [];
                    last_timestamp := last_timestamp st;
                    next_id := S (next_id st) |}
          end
        else
          Ok {| documents := documents st;
                conversation_window := [];
                last_timestamp := last_timestamp st;
                next_id := next_id st |}
      else Ok st
  | _ => Ok st
  end.

(** One turn of the loop on item number [i]. *)
Definition step (st : state) (i : nat) (item : raw_item)
  : result index_error state :=
  match preprocess_item U i item with
  | None => Ok st
  | Some m =>
      let current_time := timestamp m in
      match start_new st current_time with
      | Raise e => Raise e
      | Ok st' =>
          Ok {| documents := documents st';
                conversation_window := conversation_window st' ++ [m];
                last_timestamp := Some current_time;
                next_id := next_id st' |}
      end
  end.

Fixpoint loop_from (i : nat) (data : list raw_item) (st : state)
  : result index_error state :=
  match data with
  | [] => Ok st
  | item :: rest =>
      match step st i item with
      | Raise e => Raise e
      | Ok st' => loop_from (S i) rest st'
      end
  end.

Definition initial : state :=
  {| documents := []; conversation_window := [];
     last_timestamp := None; next_id := 0 |}.

(** [preprocess_whatsapp_data], lines 29 to 125, on the loaded
    transcript. *)
Definition preprocess_whatsapp_data (data : list raw_item)
  : result index_error (list Document) :=
  match loop_from 0 data initial with
  | Raise e => Raise e
  | Ok st =>
      if 3 <=? List.length (conversation_window st)
      then
        match make_document (conversation_window st) (next_id st) with
        | Raise e => Raise e
        | Ok d => Ok (documents st ++ [d])
        end
      else Ok (documents st)
  end.

End Simple.

(** [create_vector_database_with_logging], lines 172 to 214: batches of
    ten, and no call is guarded. *)
Section Store.

Variable D S_ E : Type.
Variable from_documents : list D -> result E S_.
Variable add_documents : S_ -> list D -> S_ * option E.

Definition batch_size : nat := 10.

(** The loop of line 190 from the start index [i] on: the first
    exception ends it. *)
Fixpoint add_batches (documents : list D) (starts : list nat)
  (vector_db : S_) (printed : list (log_line E))
  : result E S_ * list (log_line E) :=
  match starts with
  | [] => (Ok vector_db, printed)
  | i :: rest =>
      let total_docs := List.length documents in
      let printed :=
        printed ++ [LogLote (i / batch_size + 1) i total_docs] in
      match add_documents vector_db (slice documents i (i + batch_size)) with
      | (_, Some e) => (Raise e, printed)
      | (vector_db, None) =>
          add_batches documents rest vector_db
            (printed ++ [LogProgress (i / batch_size + 1)
                                     (total_docs / batch_size + 1)])
      end
  end.

Definition create_vector_database_with_logging (documents : list D)
  : result E S_ * list (log_line E) :=
  let total_docs := List.length documents in
  let printed := [LogCreating; LogLote 1 0 total_docs] in
  match from_documents (slice documents 0 batch_size) with
  | Raise e => (Raise e, printed)
  | Ok vector_db =>
      match add_batches documents
              (py_range_from batch_size total_docs batch_size)
              vector_db printed with
      | (Raise e, printed) => (Raise e, printed)
      | (Ok vector_db, printed) => (Ok vector_db, printed ++ [LogSuccess])
      end
  end.

End Store.

End Rag.

Module App.

Section Simple.

Variable U : unicode_db.
Variable list_of_set : list str -> list str.

(** The state of the loop of line 65: the documents, the authors added
    to the set [participants] (in the order of the calls of [add]), the
    window and the counter. *)
Record state := {
  documents : list Rag.Document;
  added : list str;
  conversation_window : list msg;
  next_id : nat
}.

(** Lines 91 to 108: a full window of ten becomes a document. *)
Definition close_window (st : state) : result Rag.index_error state :=
  if 10 <=? List.length (conversation_window st)
  then
    match Rag.make_document U list_of_set (conversation_window st)
            (next_id st) with
    | Raise e => Raise e
    | Ok d =>
        Ok {| documents := documents st ++ [d];
              added := added st;
              conversation_window := [];
              next_id := S (next_id st) |}
    end
  else Ok st.

(** One turn of the loop on item number [i]: the author is added to
    [participants] before the message is looked at. *)
Definition step (st : state) (i : nat) (item : raw_item)
  : result Rag.index_error state :=
  let author := get (item_author item) (u "Desconhecido") in
  let added :=
    if str_eqb author (u "Desconhecido") then added st
    else added st ++ [author] in
  match preprocess_item U i item with
  | None =>
      Ok {| documents := documents st; added := added;
            conversation_window := conversation_window st;
            next_id := next_id st |}
  | Some m =>
      close_window
        {| documents := documents st; added := added;
           conversation_window := conversation_window st ++ [m];
           next_id := next_id st |}
  end.

Fixpoint loop_from (i : nat) (data : list raw_item) (st : state)
  : result Rag.index_error state :=
  match data with
  | [] => Ok st
  | item :: rest =>
      match step st i item with
      | Raise e => Raise e
      | Ok st' => loop_from (S i) rest st'
      end
  end.

Definition initial : state :=
  {| documents := []; added := []; conversation_window := []; next_id := 0 |}.

(** [preprocess_whatsapp_data], lines 48 to 132: the documents and
    [list(participants)]; an exception is printed and raised again. *)
Definition preprocess_whatsapp_data (data : list raw_item)
  : result Rag.index_error (list Rag.Document * list str) :=
  match loop_from 0 data initial with
  | Raise e => Raise e
  | Ok st =>
      if 3 <=? List.length (conversation_window st)
      then
        match Rag.make_document U list_of_set (conversation_window st)
                (next_id st) with
        | Raise e => Raise e
        | Ok d => Ok (documents st ++ [d], list_of_set (added st))
        end
      else Ok (documents st, list_of_set (added st))
  end.

End Simple.

End App.

(** * Specification-side definitions

    The statements of the specification in its own words, to be
    compared with the program's definitions above, and the sample data
    the examples run on. *)

Definition str_eq_dec : forall a b : str, {a = b} + {a <> b} :=
  list_eq_dec N.eq_dec.

(** ** Boundary detector *)

(** What the loop keeps true: the emitted conversations followed by the
    accumulator are the messages read so far, every emitted
    conversation has at least five messages, and the accumulator ends
    with the message read last. *)
Definition detector_inv (messages : list msg) (st : detector_state) : Prop :=
  concat (fst st) ++ snd st = messages
  /\ Forall (fun c => 5 <= length c) (fst st)
  /\ py_last (snd st) = py_last messages.

Section DetectorSpec.

Variable U : unicode_db.

(** The three criteria in the specification's words. *)

(** Both messages have a parsed time and the incoming one is more than
    24 hours after the previous one. *)
Definition temporal_gap (prev incoming : msg) : Prop :=
  exists tc tp,
    parse_timestamp U (timestamp incoming) = Some tc
    /\ parse_timestamp U (timestamp prev) = Some tp
    /\ (to_microseconds tc - to_microseconds tp > 24 * 3600 * 1000000)%Z.

(** The accumulator already holds more than 100 messages. *)
Definition size_cap (acc : list msg) : Prop := 100 < length acc.

(** More than 2 distinct authors among the last 20 accumulated
    messages, and the incoming author is none of them. *)
Definition participant_shift (acc : list msg) (incoming : msg) : Prop :=
  let recent := map author (last_n 20 acc) in
  2 < length (nodup str_eq_dec recent) /\ ~ In (author incoming) recent.

End DetectorSpec.

(** ** Overlap windower *)

(** The window count the specification states for [N] messages:
    [ceil(max(0, N - overlap) / (size - overlap))]. *)
Definition spec_window_count (size overlap N : Z) : Z :=
  let a := Z.max 0 (N - overlap) in
  let b := (size - overlap)%Z in
  ((a + b - 1) / b)%Z.

(** The number of windows [overlap_windows] emits for [N] messages:
    one for every start 0, 25, 50, ... that leaves at least 5. *)
Definition window_count (N : nat) : nat :=
  if N <? 5 then 0 else (N - 5) / 25 + 1.

(** ** Keywords *)

(** A word enters the count only through the test of line 102. *)
Definition countable (word : str) : Prop :=
  2 < length word /\ ~ In word stopwords.

(** ** Participants *)

(** An iteration order for sets of strings: every element of the set
    once, in some order. *)
Definition set_iteration (list_of_set : list str -> list str) : Prop :=
  forall xs, NoDup (list_of_set xs)
             /\ forall x, In x (list_of_set xs) <-> In x xs.

(** The participants of the specification: the distinct authors in the
    order in which they are first seen, joined with ", ". *)
Definition first_seen_participants (unit : list msg) : str :=
  join (u ", ") (set_of (map author unit)).

(** One iteration order that is not the first-seen one. *)
Definition last_added_first (xs : list str) : list str := rev (set_of xs).

(** ** Batched submission *)

Section IngestionSpec.

Variable D S_ E : Type.
Variable add_documents : S_ -> list D -> S_ * option E.

(** Appending batches one after the other, a failed call not stopping
    the rest: the store afterwards and the exceptions raised, in
    order. *)
Fixpoint submit (s : S_) (batches : list (list D)) : S_ * list E :=
  match batches with
  | [] => (s, [])
  | b :: rest =>
      let '(s', raised) := add_documents s b in
      let '(s'', es) := submit s' rest in
      (s'', match raised with Some e => e :: es | None => es end)
  end.

(** The batches after the first, for [teste.py] (ten documents each)
    and for [app.py] (five each). *)
Definition later_batches (documents : list D) : list (list D) :=
  map (fun k => slice documents (k * 10)
                      (Nat.min (k * 10 + 10) (length documents)))
      (seq 1 ((length documents + 10 - 1) / 10 - 1)).

Definition app_later_batches (documents : list D) : list (list D) :=
  map (fun i => slice documents i (i + 5))
      (py_range_from 5 (length documents) 5).

End IngestionSpec.

(** The exceptions of the error lines, in order. *)
Fixpoint logged_errors {E} (printed : list (log_line E)) : list E :=
  match printed with
  | [] => []
  | LogBatchError _ e :: rest => e :: logged_errors rest
  | _ :: rest => logged_errors rest
  end.

(** The stub of the scenario fails on call 3 and on no other. *)
Definition fails_on_3 (call : nat) : bool := call =? 3.
Definition never_fails (call : nat) : bool := false.

(** ** Sample data *)

(** A message without a timestamp and one with. *)
Definition sample_msg (who : string) (i : nat) : msg :=
  {| author := u who; message := u "ola"; original_message := u "ola";
     timestamp := []; index := i |}.

Definition timed_msg (who when : string) (i : nat) : msg :=
  {| author := u who; message := u "ola"; original_message := u "ola";
     timestamp := u when; index := i |}.

(** Twelve messages by one author, all of the same minute. *)
Definition twelve_messages : list msg :=
  map (fun i => timed_msg "Ana" "15/03/2023, 14:30" i) (seq 0 12).

(** Five messages on one day, then five more three days later. *)
Definition two_days : list msg :=
  map (fun i => timed_msg "Ana" "15/03/2023, 14:30" i) (seq 0 5)
  ++ map (fun i => timed_msg "Bia" "18/03/2023, 15:00" i) (seq 5 5).

(** A transcript record with every key present. *)
Definition item_of (who text when : string) : raw_item :=
  {| item_author := Some (u who);
     item_message := Some (u text);
     item_timestamp := Some (u when) |}.

(** Whether a turn of a filtering loop keeps the record. *)
Definition kept (r : option msg) : bool :=
  match r with Some _ => true | None => false end.

(** One hundred and two messages by one author, without timestamps. *)
Definition long_run : list msg := map (sample_msg "Ana") (seq 0 102).

(** Five messages among three authors, then five by a newcomer. *)
Definition newcomer : list msg :=
  [ sample_msg "Ana" 0; sample_msg "Bia" 1; sample_msg "Caio" 2;
    sample_msg "Ana" 3; sample_msg "Bia" 4 ]
  ++ map (sample_msg "Davi") (seq 5 5).

(** * Further specification-side definitions *)

(** ** Batches *)

(** The batches after the first as [rag.py] cuts them: ten documents
    each, from the start indices of [range(10, total, 10)]. *)
Definition rag_later_batches {D} (documents : list D) : list (list D) :=
  map (fun i => slice documents i (i + 10))
      (py_range_from 10 (length documents) 10).

(** ** Keywords *)

(** Sixty messages by one author. *)
Definition sixty_messages : list msg := map (sample_msg "Ana") (seq 0 60).

Section KeywordSpec.

Variable U : unicode_db.

(** The words of a text: the matches of [\b\w+\b] in its lowercase
    form, in order. *)
Definition tokens (text : str) : list str :=
  re_findall (word_pattern U) (lower U text).

(** The test of line 102. *)
Definition counted (word : str) : bool :=
  (2 <? length word) && negb (str_in word stopwords).

(** How often a word occurs among the words of a text. *)
Definition occurrences (text : str) (word : str) : nat :=
  count_occ str_eq_dec (tokens text) word.

(** The counted words of a text, each once, in the order in which they
    first occur. *)
Definition first_seen_words (text : str) : list str :=
  set_of (filter counted (tokens text)).

End KeywordSpec.

(** ** Timestamps *)

(** A date-time of the proleptic Gregorian calendar as [datetime]
    accepts it. *)
Definition valid_datetime (d : datetime) : Prop :=
  (1 <= year d <= 9999
   /\ 1 <= month d <= 12
   /\ 1 <= day d <= days_in_month (year d) (month d)
   /\ 0 <= hour d <= 23
   /\ 0 <= minute d <= 59
   /\ 0 <= second d <= 59
   /\ 0 <= microsecond d <= 999999)%Z.

(** A text without any decimal digit. *)
Definition no_digit (U : unicode_db) (s : str) : Prop :=
  Forall (fun c => isdigit U c = false) s.

(** A pattern that cannot match in a text without digits. *)
Definition needs_digit (U : unicode_db) (r : rx) : Prop :=
  forall prev s, no_digit U s -> rmatch r prev s = [].

(** ** Documents *)

(** The metadata of a list of documents, field by field. *)
Definition doc_ids (docs : list Document) : list str :=
  map (fun d => doc_id (doc_metadata d)) docs.

Definition doc_types (docs : list Document) : list doc_type :=
  map (fun d => type (doc_metadata d)) docs.

Definition doc_sizes (docs : list Document) : list nat :=
  map (fun d => message_count (doc_metadata d)) docs.

(** The conversations that pass the test of line 321. *)
Definition long_enough (conversations : list (list msg)) : list (list msg) :=
  filter (fun conv => negb (length conv <? 5)) conversations.

(** ** The simple mode *)

(** The messages the loops of [rag.py] and [app.py] keep, in order,
    numbered from [i]. *)
Fixpoint simple_kept_from (U : unicode_db) (i : nat) (data : list raw_item)
  : list msg :=
  match data with
  | [] => []
  | item :: rest =>
      match preprocess_item U i item with
      | Some m => m :: simple_kept_from U (S i) rest
      | None => simple_kept_from U (S i) rest
      end
  end.

Definition simple_kept (U : unicode_db) (data : list raw_item) : list msg :=
  simple_kept_from U 0 data.

(** A document made of the window [w]: the number of messages, the
    timestamps of the first and the last message, the participants. *)
Definition describes (list_of_set : list str -> list str)
  (d : Rag.Document) (w : list msg) : Prop :=
  Rag.message_count d = length w
  /\ Rag.start_time d = match w with m :: _ => timestamp m | [] => [] end
  /\ Rag.end_time d = match py_last w with Some m => timestamp m | None => [] end
  /\ Rag.participants d = join (u ", ") (list_of_set (map author w)).

(** The rest of the messages becomes a window when it has at least 3. *)
Definition closing_window (rest : list msg) : list (list msg) :=
  if 3 <=? length rest then [rest] else [].

(** The state of the loop of [rag.py] after the kept messages [seen]. *)
Definition rag_loop_inv (list_of_set : list str -> list str)
  (st : Rag.state) (seen : list msg) : Prop :=
  exists windows,
    seen = concat windows ++ Rag.conversation_window st
    /\ Forall2 (describes list_of_set) (Rag.documents st) windows
    /\ map Rag.conversation_id (Rag.documents st)
       = map str_of_nat (seq 0 (length windows))
    /\ Rag.next_id st = length windows
    /\ Forall (fun w => 21 <= length w) windows
    /\ Rag.last_timestamp st = option_map timestamp (py_last seen)
    /\ (Forall (fun m => timestamp m <> []) seen ->
        Forall (fun w => length w = 21) windows
        /\ length (Rag.conversation_window st) <= 21
        /\ (seen <> [] -> Rag.conversation_window st <> []))
    /\ (Forall (fun m => timestamp m = []) seen -> windows = []).

(** Sixty records kept by the simple mode, with and without a
    timestamp. *)
Definition sixty_timed_items : list raw_item :=
  repeat (item_of "Ana" "bom dia" "15/03/2023, 14:30") 60.

Definition sixty_untimed_items : list raw_item :=
  repeat {| item_author := Some (u "Ana");
            item_message := Some (u "bom dia");
            item_timestamp := None |} 60.



(** Twenty-six records of which one, by Caio, is a deleted message. *)
Definition twenty_six_items : list raw_item :=
  repeat (item_of "Ana" "bom dia" "15/03/2023, 14:30") 12
  ++ [item_of "Caio" "Mensagem apagada" "15/03/2023, 14:31"]
  ++ repeat (item_of "Bia" "boa tarde" "15/03/2023, 14:32") 13.

(** * Properties *)

(** ** Strings and sets of strings *)

Lemma str_eqb_eq (a b : str) : str_eqb a b = true <-> a = b.
Proof.
  revert b; induction a as [|x a IH]; intros [|y b]; simpl;
    try (split; congruence).
  rewrite andb_true_iff, IH. unfold cp_eqb. rewrite N.eqb_eq.
  split; [intros [-> ->]; reflexivity | intros [= -> ->]; auto].
Qed.

Lemma str_eqb_refl (a : str) : str_eqb a a = true.
Proof. apply str_eqb_eq; reflexivity. Qed.

Lemma str_in_In (x : str) (l : list str) : str_in x l = true <-> In x l.
Proof.
  unfold str_in. rewrite existsb_exists. split.
  - intros (y & Hy & E). apply str_eqb_eq in E. subst; assumption.
  - intros H. exists x. split; [assumption | apply str_eqb_refl].
Qed.

Lemma str_in_not_In (x : str) (l : list str) : str_in x l = false <-> ~ In x l.
Proof.
  rewrite <- str_in_In. destruct (str_in x l); split; congruence.
Qed.

Lemma set_add_In (s : list str) (x y : str) :
  In y (set_add s x) <-> In y s \/ y = x.
Proof.
  unfold set_add. destruct (str_in x s) eqn:E.
  - apply str_in_In in E. split; [auto | intros [H | ->]; assumption].
  - rewrite in_app_iff. simpl. intuition.
Qed.

Lemma set_add_NoDup (s : list str) (x : str) : NoDup s -> NoDup (set_add s x).
Proof.
  intros H. unfold set_add. destruct (str_in x s) eqn:E; [assumption |].
  apply str_in_not_In in E.
  apply NoDup_rev in H. rewrite <- (rev_involutive (s ++ [x])).
  apply NoDup_rev. rewrite rev_app_distr. simpl. constructor.
  - rewrite <- in_rev. assumption.
  - assumption.
Qed.

Lemma fold_set_add_spec (xs s : list str) :
  NoDup s ->
  NoDup (fold_left set_add xs s)
  /\ forall y, In y (fold_left set_add xs s) <-> In y s \/ In y xs.
Proof.
  revert s; induction xs as [|x xs IH]; intros s Hs; simpl.
  - split; [assumption | intuition].
  - destruct (IH (set_add s x) (set_add_NoDup x Hs)) as [Hn Hi].
    split; [assumption |].
    intros y. rewrite Hi, set_add_In. intuition.
Qed.

Lemma set_of_NoDup (xs : list str) : NoDup (set_of xs).
Proof. apply (fold_set_add_spec xs (NoDup_nil _)). Qed.

Lemma set_of_In (xs : list str) (y : str) : In y (set_of xs) <-> In y xs.
Proof.
  unfold set_of.
  destruct (fold_set_add_spec xs (NoDup_nil str)) as [_ H].
  rewrite H. simpl. intuition.
Qed.

(** The size of the set is the number of distinct elements. *)
Lemma set_of_length (xs : list str) :
  length (set_of xs) = length (nodup str_eq_dec xs).
Proof.
  apply Permutation_length, NoDup_Permutation.
  - apply set_of_NoDup.
  - apply NoDup_nodup.
  - intros y. rewrite set_of_In, nodup_In. reflexivity.
Qed.

(** ** Lists: the last element *)

Lemma py_last_nil {A} : py_last (@nil A) = None.
Proof. reflexivity. Qed.

Lemma py_last_snoc {A} (l : list A) (x : A) : py_last (l ++ [x]) = Some x.
Proof.
  unfold py_last. rewrite length_app. simpl.
  replace (length l + 1 - 1) with (length l) by lia.
  rewrite nth_error_app2 by lia. rewrite Nat.sub_diag. reflexivity.
Qed.

(** ** The boundary detector *)

Section DetectorProperties.

Variable U : unicode_db.

Lemma detector_run_snoc (messages : list msg) (m : msg) :
  detector_run U (messages ++ [m])
  = detector_step U (detector_run U messages) m.
Proof. unfold detector_run. apply fold_left_app. Qed.

Lemma detector_step_inv (messages : list msg) (st : detector_state) (m : msg) :
  detector_inv messages st ->
  detector_inv (messages ++ [m]) (detector_step U st m).
Proof.
  destruct st as [convs cur]. unfold detector_inv, detector_step.
  cbn [fst snd]. intros (Hc & Hf & _).
  destruct (py_last cur) as [last_msg|].
  - destruct (should_split U cur last_msg m && (5 <=? length cur)) eqn:E;
      cbn [fst snd].
    + apply andb_true_iff in E. destruct E as [_ E].
      apply Nat.leb_le in E.
      rewrite concat_app. cbn [concat]. rewrite app_nil_r, Hc.
      repeat split.
      * apply Forall_app. split; [assumption | constructor; auto].
      * rewrite py_last_snoc. reflexivity.
    + rewrite app_assoc, Hc. repeat split; [assumption |].
      rewrite !py_last_snoc. reflexivity.
  - cbn [fst snd]. rewrite app_assoc, Hc. repeat split; [assumption |].
    rewrite !py_last_snoc. reflexivity.
Qed.

Lemma detector_run_inv (messages : list msg) :
  detector_inv messages (detector_run U messages).
Proof.
  induction messages as [|m messages IH] using rev_ind.
  - repeat split. constructor.
  - rewrite detector_run_snoc. apply detector_step_inv. assumption.
Qed.

(** The result in terms of the final state of the loop, the empty
    transcript included. *)
Lemma detect_final (messages : list msg) :
  detect_conversation_boundaries_conservative U messages
  = if 5 <=? length (snd (detector_run U messages))
    then fst (detector_run U messages) ++ [snd (detector_run U messages)]
    else fst (detector_run U messages).
Proof.
  unfold detect_conversation_boundaries_conservative.
  destruct messages as [|m messages]; [reflexivity |].
  destruct (detector_run U (m :: messages)) as [convs cur]. reflexivity.
Qed.


Lemma should_split_orb (acc : list msg) (last_msg m : msg) :
  should_split U acc last_msg m
  = (match parse_timestamp U (timestamp m),
           parse_timestamp U (timestamp last_msg) with
     | Some c, Some l => gap_over_24h c l
     | _, _ => false
     end
     || (100 <? length acc)
     || ((2 <? length (set_of (map author (last_n 20 acc))))
         && negb (str_in (author m) (set_of (map author (last_n 20 acc)))))).
Proof.
  unfold should_split.
  destruct (parse_timestamp U (timestamp m)) as [c|];
    destruct (parse_timestamp U (timestamp last_msg)) as [l|];
    try destruct (gap_over_24h c l);
    destruct (100 <? length acc);
    destruct ((2 <? length (set_of (map author (last_n 20 acc))))
              && negb (str_in (author m) (set_of (map author (last_n 20 acc)))));
    reflexivity.
Qed.

Lemma temporal_gap_iff (prev m : msg) :
  match parse_timestamp U (timestamp m),
        parse_timestamp U (timestamp prev) with
  | Some c, Some l => gap_over_24h c l
  | _, _ => false
  end = true <-> temporal_gap U prev m.
Proof.
  unfold temporal_gap, gap_over_24h.
  destruct (parse_timestamp U (timestamp m)) as [c|];
    destruct (parse_timestamp U (timestamp prev)) as [l|].
  - rewrite Z.ltb_lt. split.
    + intros H. exists c, l. repeat split. lia.
    + intros (tc & tp & [= ->] & [= ->] & H). lia.
  - split; [discriminate | intros (tc & tp & _ & [=] & _)].
  - split; [discriminate | intros (tc & tp & [=] & _)].
  - split; [discriminate | intros (tc & tp & [=] & _)].
Qed.

Lemma participant_shift_iff (acc : list msg) (m : msg) :
  (2 <? length (set_of (map author (last_n 20 acc))))
  && negb (str_in (author m) (set_of (map author (last_n 20 acc)))) = true
  <-> participant_shift acc m.
Proof.
  unfold participant_shift.
  rewrite andb_true_iff, negb_true_iff, Nat.ltb_lt, str_in_not_In.
  rewrite set_of_length, set_of_In. reflexivity.
Qed.

(** The flag for any accumulator and any pair of messages. *)
Lemma should_split_iff (acc : list msg) (prev m : msg) :
  should_split U acc prev m = true
  <-> temporal_gap U prev m \/ size_cap acc \/ participant_shift acc m.
Proof.
  rewrite should_split_orb, !orb_true_iff.
  rewrite temporal_gap_iff, participant_shift_iff.
  unfold size_cap. rewrite Nat.ltb_lt. tauto.
Qed.

(** After a non-empty prefix the accumulator ends with the message read
    last, so the loop compares the incoming message with the previous
    message of the stream. *)
Lemma accumulator_last (pre : list msg) (prev : msg) :
  py_last (snd (detector_run U (pre ++ [prev]))) = Some prev.
Proof.
  destruct (detector_run_inv (pre ++ [prev])) as (_ & _ & H).
  rewrite H. apply py_last_snoc.
Qed.

(** The turn of the loop for an incoming message after a non-empty
    prefix. *)
Lemma detector_run_next (pre : list msg) (prev m : msg) :
  detector_run U ((pre ++ [prev]) ++ [m])
  = if should_split U (snd (detector_run U (pre ++ [prev]))) prev m
       && (5 <=? length (snd (detector_run U (pre ++ [prev]))))
    then (fst (detector_run U (pre ++ [prev]))
            ++ [snd (detector_run U (pre ++ [prev]))], [m])
    else (fst (detector_run U (pre ++ [prev])),
          snd (detector_run U (pre ++ [prev])) ++ [m]).
Proof.
  rewrite detector_run_snoc.
  pose proof (accumulator_last pre prev) as Hl.
  destruct (detector_run U (pre ++ [prev])) as [cs cur]. cbn [fst snd] in *.
  unfold detector_step. rewrite Hl. reflexivity.
Qed.

(** C1. While a stream is read, with [prev] the message read last and
    [m] the incoming one, the detector sets its split flag exactly when
    (1) both have a parsed time more than 24 hours apart, or (2) the
    accumulator holds more than 100 messages, or (3) the last 20
    accumulated messages have more than 2 distinct authors and the
    author of [m] is not one of them; the flag is the one the loop
    consults for [m]. *)
Theorem split_forced_exactly_on_three_criteria
  (pre : list msg) (prev m : msg) :
  let acc := snd (detector_run U (pre ++ [prev])) in
  let convs := fst (detector_run U (pre ++ [prev])) in
  (should_split U acc prev m = true
   <-> temporal_gap U prev m \/ size_cap acc \/ participant_shift acc m)
  /\ detector_run U ((pre ++ [prev]) ++ [m])
     = if should_split U acc prev m && (5 <=? length acc)
       then (convs ++ [acc], [m])
       else (convs, acc ++ [m]).
Proof.
  intros acc convs. split; [apply should_split_iff | apply detector_run_next].
Qed.

(** C2. A forced split is honoured only when the accumulator holds at
    least 5 messages, otherwise the incoming message is appended; an
    honoured split emits the accumulator and starts a new one holding
    exactly the incoming message; at the end of the stream the
    accumulator is emitted if it holds at least 5 messages and dropped
    otherwise. *)
Theorem split_honoured_from_five_messages :
  (forall (pre : list msg) (prev m : msg),
     let acc := snd (detector_run U (pre ++ [prev])) in
     let convs := fst (detector_run U (pre ++ [prev])) in
     detector_run U ((pre ++ [prev]) ++ [m])
     = if 5 <=? length acc
       then if should_split U acc prev m
            then (convs ++ [acc], [m])
            else (convs, acc ++ [m])
       else (convs, acc ++ [m]))
  /\ (forall m : msg, detector_run U [m] = ([], [m]))
  /\ (forall messages : list msg,
       let acc := snd (detector_run U messages) in
       let convs := fst (detector_run U messages) in
       detect_conversation_boundaries_conservative U messages
       = if 5 <=? length acc then convs ++ [acc] else convs).
Proof.
  split; [| split].
  - intros pre prev m acc convs.
    rewrite detector_run_next. fold acc convs.
    destruct (5 <=? length acc), (should_split U acc prev m); reflexivity.
  - reflexivity.
  - intros messages acc convs. apply detect_final.
Qed.

(** C10. The emitted segments, concatenated in order, are the input
    without a trailing remainder of fewer than 5 messages, and every
    emitted segment has at least 5 messages. *)
Theorem segments_concat_is_input_minus_short_tail (messages : list msg) :
  exists remainder : list msg,
    concat (detect_conversation_boundaries_conservative U messages)
      ++ remainder = messages
    /\ length remainder < 5
    /\ Forall (fun seg => 5 <= length seg)
              (detect_conversation_boundaries_conservative U messages).
Proof.
  rewrite detect_final.
  destruct (detector_run_inv messages) as (Hc & Hf & _).
  destruct (detector_run U messages) as [convs cur]. cbn [fst snd] in *.
  destruct (5 <=? length cur) eqn:E.
  - apply Nat.leb_le in E. exists []. repeat split.
    + rewrite concat_app. cbn [concat]. rewrite !app_nil_r. assumption.
    + simpl. lia.
    + apply Forall_app. split; [assumption | constructor; auto].
  - apply Nat.leb_gt in E. exists cur. repeat split; assumption.
Qed.

End DetectorProperties.

(** Two runs of the detector: twelve messages close in time stay one
    segment; a gap of three days after five messages splits. *)
Example detector_keeps_one_segment :
  detect_conversation_boundaries_conservative latin1_db twelve_messages
  = [twelve_messages].
Proof. vm_compute. reflexivity. Qed.

Example detector_splits_on_gap :
  detect_conversation_boundaries_conservative latin1_db two_days
  = [firstn 5 two_days; skipn 5 two_days].
Proof. vm_compute. reflexivity. Qed.

(** The size cap: the message after the 101st closes the segment, and
    is itself dropped with the short final accumulator.  The
    participant shift: a fourth author after three closes the
    segment. *)
Example detector_splits_on_size :
  detect_conversation_boundaries_conservative latin1_db long_run
  = [firstn 101 long_run].
Proof. vm_compute. reflexivity. Qed.

Example detector_splits_on_newcomer :
  detect_conversation_boundaries_conservative latin1_db newcomer
  = [firstn 5 newcomer; skipn 5 newcomer].
Proof. vm_compute. reflexivity. Qed.

(** A gap met before the accumulator has five messages is not
    honoured, and a short final accumulator is dropped. *)
Example detector_ignores_early_gap :
  detect_conversation_boundaries_conservative latin1_db (skipn 2 two_days)
  = [skipn 2 two_days]
  /\ detect_conversation_boundaries_conservative latin1_db
       (firstn 4 two_days) = [].
Proof. split; vm_compute; reflexivity. Qed.

(** ** The overlap windower *)

Ltac divmod a b :=
  pose proof (Nat.div_mod_eq a b);
  pose proof (Nat.mod_upper_bound a b ltac:(lia)).

Lemma slice_length {A} (l : list A) (i j : nat) :
  length (slice l i j) = Nat.min (j - i) (length l - i).
Proof. unfold slice. rewrite length_firstn, length_skipn. reflexivity. Qed.

Lemma slice_nth_error {A} (l : list A) (i j k : nat) :
  i <= k < j -> nth_error (slice l i j) (k - i) = nth_error l k.
Proof.
  intros H. unfold slice. rewrite nth_error_firstn, nth_error_skipn.
  replace (i + (k - i)) with k by lia.
  destruct (k - i <? j - i) eqn:E; [reflexivity |].
  apply Nat.ltb_ge in E. lia.
Qed.

(** The loop of line 171 collects the chunks that pass the test of
    line 173, in order. *)
Lemma chunk_loop_filter (messages : list msg) (chunk_size : nat)
  (starts : list nat) (chunks : list (list msg)) :
  fold_left (chunk_loop messages chunk_size) starts chunks
  = chunks ++ filter (fun c => 5 <=? length c)
                     (map (fun i => slice messages i (i + chunk_size)) starts).
Proof.
  revert chunks; induction starts as [|i starts IH]; intros chunks;
    cbn [fold_left map filter].
  - rewrite app_nil_r. reflexivity.
  - rewrite IH. unfold chunk_loop.
    destruct (5 <=? length (slice messages i (i + chunk_size))).
    + rewrite <- app_assoc. reflexivity.
    + reflexivity.
Qed.

Lemma filter_below_seq (c n : nat) :
  filter (fun k => k <? c) (seq 0 n) = seq 0 (Nat.min c n).
Proof.
  induction n as [|n IH].
  - rewrite Nat.min_0_r. reflexivity.
  - rewrite seq_S, filter_app, IH. cbn [filter Nat.add].
    destruct (n <? c) eqn:E.
    + apply Nat.ltb_lt in E.
      replace (Nat.min c n) with n by lia.
      replace (Nat.min c (S n)) with (S n) by lia.
      rewrite seq_S. reflexivity.
    + apply Nat.ltb_ge in E. rewrite app_nil_r.
      f_equal. lia.
Qed.

Lemma window_kept_iff (N k : nat) :
  (5 <=? Nat.min (k * 25 + 40 - k * 25) (N - k * 25)) = (k <? window_count N).
Proof.
  unfold window_count. divmod (N - 5) 25.
  destruct (N <? 5) eqn:E5;
    [apply Nat.ltb_lt in E5 | apply Nat.ltb_ge in E5];
    destruct (5 <=? Nat.min (k * 25 + 40 - k * 25) (N - k * 25)) eqn:E1;
    destruct (k <? _) eqn:E2; try reflexivity;
    rewrite ?Nat.leb_le, ?Nat.leb_gt, ?Nat.ltb_lt, ?Nat.ltb_ge in *; lia.
Qed.

Lemma window_count_le_starts (N : nat) : window_count N <= (N + 25 - 1) / 25.
Proof.
  unfold window_count. divmod (N - 5) 25. divmod (N + 25 - 1) 25.
  destruct (N <? 5) eqn:E5;
    [apply Nat.ltb_lt in E5 | apply Nat.ltb_ge in E5]; lia.
Qed.

(** The windows of the call of line 307, written out: window [k] is
    the slice of 40 messages from position [25 k], for every [k] below
    [window_count]. *)
Lemma overlap_windows_eq (messages : list msg) :
  overlap_windows messages
  = Ok (map (fun k => slice messages (25 * k) (25 * k + 40))
            (seq 0 (window_count (length messages)))).
Proof.
  unfold overlap_windows, create_overlapping_chunks.
  destruct messages as [|m0 rest] eqn:Em; [reflexivity |].
  rewrite <- Em. clear Em m0 rest.
  change (40 =? 15) with false. change (40 <? 15) with false.
  change (40 - 15) with 25. cbv iota.
  rewrite chunk_loop_filter. cbn [app]. unfold py_range.
  rewrite map_map, filter_map_swap. f_equal.
  rewrite (filter_ext_in _ (fun k => k <? window_count (length messages))).
  - rewrite filter_below_seq.
    rewrite Nat.min_l by apply window_count_le_starts.
    apply map_ext. intros k. f_equal; lia.
  - intros k _. rewrite slice_length. apply window_kept_iff.
Qed.

Lemma window_in (messages : list msg) (k : nat) :
  25 * k + 5 <= length messages ->
  In (slice messages (25 * k) (25 * k + 40))
     (map (fun k => slice messages (25 * k) (25 * k + 40))
          (seq 0 (window_count (length messages)))).
Proof.
  intros H. apply in_map_iff. exists k. split; [reflexivity |].
  apply in_seq. split; [lia |]. cbn [Nat.add].
  pose proof (window_kept_iff (length messages) k) as E.
  destruct (k <? window_count (length messages)) eqn:E2.
  - apply Nat.ltb_lt in E2. assumption.
  - apply Nat.leb_gt in E. lia.
Qed.

(** With at least five messages, every position lies in an emitted
    window. *)
Lemma window_covers (messages : list msg) (i : nat) :
  5 <= length messages -> i < length messages ->
  exists s,
    In (slice messages s (s + 40))
       (map (fun k => slice messages (25 * k) (25 * k + 40))
            (seq 0 (window_count (length messages))))
    /\ s <= i < s + 40.
Proof.
  intros H5 Hi. divmod i 25.
  destruct (25 * (i / 25) + 5 <=? length messages) eqn:E.
  - apply Nat.leb_le in E. exists (25 * (i / 25)).
    split; [apply window_in; assumption | lia].
  - apply Nat.leb_gt in E. exists (25 * (i / 25 - 1)).
    split; [apply window_in; lia | lia].
Qed.

(** C4 as the program has it.  For a list of [N] messages the windower
    called with size 40 and overlap 15 emits one window for every start
    0, 25, 50, ... that leaves at least 5 messages: none when [N < 5]
    and [floor((N - 5) / 25) + 1] otherwise; for [N = 100] that is 4
    windows. *)
Theorem overlap_windows_count (messages : list msg) :
  exists ws : list (list msg),
    overlap_windows messages = Ok ws
    /\ ws = map (fun k => slice messages (25 * k) (25 * k + 40))
                (seq 0 (window_count (length messages)))
    /\ length ws = (if length messages <? 5 then 0
                    else (length messages - 5) / 25 + 1)
    /\ window_count 100 = 4.
Proof.
  eexists. split; [apply overlap_windows_eq |].
  split; [reflexivity |]. split; [| reflexivity].
  rewrite length_map, length_seq. reflexivity.
Qed.

(** C4 as stated fails: 40 messages give two windows, at 0 and at 25,
    where [ceil(max(0, 40 - 15) / 25)] is 1. *)
Lemma overlap_windows_count_not_spec_formula :
  exists ws : list (list msg),
    overlap_windows (map (sample_msg "Ana") (seq 0 40)) = Ok ws
    /\ length ws = 2
    /\ spec_window_count 40 15 40 = 1%Z
    /\ Z.of_nat (length ws) <> spec_window_count 40 15 40.
Proof.
  eexists. split; [apply overlap_windows_eq |].
  rewrite length_map, length_seq, length_map, length_seq.
  repeat split. vm_compute. discriminate.
Qed.

(** Size 5 and overlap 2 over twelve messages: starts 0, 3, 6 and 9,
    the last window clipped to 3 messages and dropped.  Equal size and
    overlap make [range] raise. *)
Example windows_size_5_overlap_2 :
  create_overlapping_chunks twelve_messages 5 2
  = Ok [slice twelve_messages 0 5; slice twelve_messages 3 8;
        slice twelve_messages 6 11]
  /\ create_overlapping_chunks twelve_messages 5 5 = Raise ValueError
  /\ create_overlapping_chunks twelve_messages 2 5 = Ok [].
Proof. repeat split. Qed.

(** ** Coverage by the two partitionings *)

Lemma in_segment_of_concat (segs : list (list msg)) (tail messages : list msg)
  (i : nat) (m : msg) :
  concat segs ++ tail = messages ->
  nth_error messages i = Some m ->
  i + length tail < length messages ->
  exists seg, In seg segs /\ In m seg.
Proof.
  intros Hc Hn Hi. subst messages.
  rewrite length_app in Hi.
  rewrite nth_error_app1 in Hn by lia.
  apply nth_error_In in Hn. apply in_concat in Hn.
  destruct Hn as (seg & Hs & Hm). exists seg. split; assumption.
Qed.

(** C3. Each partitioning leaves out at most one trailing group of
    fewer than 5 messages: the segments of the boundary detector are
    the transcript up to a tail [seg_tail], the windows of the overlap
    windower cover every position before a tail [win_tail], and every
    message before a tail occurs in a segment, respectively in a
    window. *)
Theorem every_message_covered_except_short_tails
  (U : unicode_db) (messages : list msg) :
  exists (seg_tail win_tail : list msg) (ws : list (list msg)),
    overlap_windows messages = Ok ws
    /\ length seg_tail < 5
    /\ length win_tail < 5
    /\ concat (detect_conversation_boundaries_conservative U messages)
         ++ seg_tail = messages
    /\ (exists covered, covered ++ win_tail = messages)
    /\ forall (i : nat) (m : msg),
         nth_error messages i = Some m ->
         (i + length seg_tail < length messages ->
          exists seg,
            In seg (detect_conversation_boundaries_conservative U messages)
            /\ In m seg)
         /\ (i + length win_tail < length messages ->
             exists w s,
               In w ws /\ w = slice messages s (s + 40)
               /\ s <= i < s + 40
               /\ nth_error w (i - s) = Some m).
Proof.
  destruct (detector_run_inv U messages) as (Hc & _ & _).
  pose proof (detect_final U messages) as Hd.
  destruct (detector_run U messages) as [convs cur]. cbn [fst snd] in *.
  set (segs := detect_conversation_boundaries_conservative U messages) in *.
  assert (Hseg : exists seg_tail,
             length seg_tail < 5 /\ concat segs ++ seg_tail = messages).
  { destruct (5 <=? length cur) eqn:E; rewrite Hd.
    - exists []. split; [simpl; lia |].
      rewrite concat_app. cbn [concat]. rewrite !app_nil_r. assumption.
    - apply Nat.leb_gt in E. exists cur. split; assumption. }
  destruct Hseg as (seg_tail & Hlen & Hcat).
  exists seg_tail,
         (if length messages <? 5 then messages else []),
         (map (fun k => slice messages (25 * k) (25 * k + 40))
              (seq 0 (window_count (length messages)))).
  split; [apply overlap_windows_eq |].
  split; [assumption |].
  destruct (length messages <? 5) eqn:E5.
  - apply Nat.ltb_lt in E5.
    split; [assumption |]. split; [assumption |].
    split; [exists []; reflexivity |].
    intros i m Hn. split.
    + intros Hi. eapply in_segment_of_concat; eassumption.
    + intros Hi. lia.
  - apply Nat.ltb_ge in E5.
    split; [simpl; lia |]. split; [assumption |].
    split; [exists messages; apply app_nil_r |].
    intros i m Hn. split.
    + intros Hi. eapply in_segment_of_concat; eassumption.
    + intros Hi. cbn [length] in Hi.
      destruct (window_covers messages E5 (i := i)) as (s & Hin & Hs);
        [lia |].
      exists (slice messages s (s + 40)), s.
      split; [assumption |]. split; [reflexivity |].
      split; [assumption |].
      rewrite slice_nth_error by lia. assumption.
Qed.

(** ** The keyword extractor *)

Lemma insert_desc_In {A} (key : A -> nat) (x y : A) (l : list A) :
  In y (insert_desc key x l) <-> y = x \/ In y l.
Proof.
  induction l as [|z l IH]; simpl.
  - intuition.
  - destruct (key x <=? key z); simpl; rewrite ?IH; intuition.
Qed.

Lemma sorted_desc_In {A} (key : A -> nat) (xs : list A) (y : A) :
  In y (sorted_desc key xs) <-> In y xs.
Proof.
  unfold sorted_desc.
  assert (H : forall acc,
             In y (fold_left (fun s x => insert_desc key x s) xs acc)
             <-> In y acc \/ In y xs).
  { induction xs as [|x xs IH]; intros acc; simpl.
    - intuition.
    - rewrite IH, insert_desc_In. intuition. }
  rewrite H. simpl. intuition.
Qed.

Lemma increment_keys (word : str) (word_count : list (str * nat)) :
  countable word ->
  Forall countable (map fst word_count) ->
  Forall countable (map fst (increment word word_count)).
Proof.
  intros Hw. induction word_count as [|[k n] rest IH]; simpl; intros H.
  - constructor; [assumption | constructor].
  - inversion H; subst. destruct (str_eqb k word); simpl.
    + constructor; assumption.
    + constructor; auto.
Qed.

Lemma count_step_keys (word : str) (word_count : list (str * nat)) :
  Forall countable (map fst word_count) ->
  Forall countable (map fst (count_step word_count word)).
Proof.
  intros H. unfold count_step.
  destruct ((2 <? length word) && negb (str_in word stopwords)) eqn:E.
  - apply andb_true_iff in E. destruct E as [E1 E2].
    apply Nat.ltb_lt in E1. apply negb_true_iff, str_in_not_In in E2.
    apply increment_keys; [split |]; assumption.
  - assumption.
Qed.

Lemma word_count_keys (words : list str) (word_count : list (str * nat)) :
  Forall countable (map fst word_count) ->
  Forall countable (map fst (fold_left count_step words word_count)).
Proof.
  revert word_count; induction words as [|w words IH]; intros wc H.
  - assumption.
  - cbn [fold_left]. apply IH, count_step_keys. assumption.
Qed.

Lemma extract_keywords_countable (U : unicode_db) (text : str) :
  Forall countable (extract_keywords U text).
Proof.
  unfold extract_keywords. apply Forall_forall. intros w Hw.
  apply in_map_iff in Hw. destruct Hw as ([k n] & <- & Hin).
  apply sorted_desc_In in Hin.
  pose proof (word_count_keys
                (re_findall (word_pattern U) (lower U text)) []
                (Forall_nil _)) as H.
  rewrite Forall_forall in H. apply H.
  apply in_map_iff. exists (k, n). split; [reflexivity | assumption].
Qed.

(** C6 as the program has it.  No keyword is a stoplist token and none
    has length 2 or less.  The input "eu vou e ele tambem" yields the
    one keyword "tambem", which is not in the stoplist (the stoplist
    has the accented "também"); with the accent the list is empty. *)
Theorem keywords_exclude_stopwords_and_short_tokens
  (U : unicode_db) (text : str) :
  Forall (fun w => 2 < length w /\ ~ In w stopwords /\ str_in w stopwords = false)
         (extract_keywords U text)
  /\ extract_keywords U (u "eu vou e ele tambem") = [u "tambem"]
  /\ str_in (u "tambem") stopwords = false
  /\ extract_keywords U (u "eu vou e ele também") = [].
Proof.
  split.
  - eapply Forall_impl; [| apply extract_keywords_countable].
    intros w [H1 H2]. repeat split; try assumption.
    apply str_in_not_In. assumption.
  - repeat split; vm_compute; reflexivity.
Qed.

(** C6 as stated fails: for "eu vou e ele tambem" the keyword list is
    not empty. *)
Lemma keywords_of_unaccented_tambem_not_empty :
  extract_keywords latin1_db (u "eu vou e ele tambem") = [u "tambem"]
  /\ extract_keywords latin1_db (u "eu vou e ele tambem") <> [].
Proof. split; vm_compute; [reflexivity | discriminate]. Qed.

(** ** System messages *)

Section NormalizerProperties.

Variable U : unicode_db.

(** The classifier answers yes for a text that, lowercased and trimmed,
    is a phrase of the list or starts with one. *)
Lemma is_system_message_phrase (message phrase : str) :
  In phrase system_messages ->
  strip U (lower U message) = phrase
  \/ startswith (strip U (lower U message)) phrase = true ->
  is_system_message U message = true.
Proof.
  intros Hin H. unfold is_system_message.
  destruct message as [|c message]; [reflexivity |].
  destruct (length (strip U (c :: message)) <? 2); [reflexivity |].
  cbv zeta.
  replace (existsb _ system_messages) with true; [reflexivity |].
  symmetry. apply existsb_exists. exists phrase. split; [assumption |].
  apply orb_true_iff. destruct H as [-> | H].
  - left. apply str_eqb_refl.
  - right. assumption.
Qed.

(** And for a text that, lowercased and trimmed, matches one of the
    five patterns. *)
Lemma is_system_message_pattern (message : str) (pattern : rx) :
  In pattern (system_patterns U) ->
  matches pattern (strip U (lower U message)) = true ->
  is_system_message U message = true.
Proof.
  intros Hin H. unfold is_system_message.
  destruct message as [|c message]; [reflexivity |].
  destruct (length (strip U (c :: message)) <? 2); [reflexivity |].
  cbv zeta.
  destruct (existsb _ system_messages); [reflexivity |].
  apply existsb_exists. exists pattern. split; assumption.
Qed.

(** The conservative normaliser drops what the classifier flags. *)
Lemma filter_item_drops_system (i : nat) (item : raw_item) :
  is_system_message U (strip U (get (item_message item) [])) = true ->
  filter_item U i item = None.
Proof.
  intros H. unfold filter_item. rewrite H.
  destruct (length (strip U (get (item_message item) [])) <? 1);
    reflexivity.
Qed.

(** "mensagem apagada" is dropped in both modes whatever its case. *)
Lemma mensagem_apagada_dropped :
  kept (filter_item U 0 (item_of "Ana" "mensagem apagada" "15/03/2023, 14:30")) = false
  /\ kept (filter_item U 0 (item_of "Ana" "Mensagem Apagada" "15/03/2023, 14:30")) = false
  /\ kept (filter_item U 0 (item_of "Ana" "MENSAGEM APAGADA" "15/03/2023, 14:30")) = false
  /\ kept (preprocess_item U 0 (item_of "Ana" "mensagem apagada" "15/03/2023, 14:30")) = false
  /\ kept (preprocess_item U 0 (item_of "Ana" "Mensagem Apagada" "15/03/2023, 14:30")) = false
  /\ kept (preprocess_item U 0 (item_of "Ana" "MENSAGEM APAGADA" "15/03/2023, 14:30")) = false.
Proof. repeat split; vm_compute; reflexivity. Qed.

(** "oi" passes the minimum length 1 of the conservative mode and
    fails the minimum length 3 of the simple mode. *)
Lemma oi_kept_at_1_dropped_at_3 :
  kept (filter_item U 0 (item_of "Ana" "oi" "15/03/2023, 14:30")) = true
  /\ kept (preprocess_item U 0 (item_of "Ana" "oi" "15/03/2023, 14:30")) = false.
Proof. split; vm_compute; reflexivity. Qed.

(** C7 at the input "<Media omitted>".  The classifier of [teste.py]
    answers no: lowercased, the text starts with "<", so it neither is
    nor starts with "media omitted", and no pattern matches.  The
    conservative normaliser therefore keeps the message, in either
    case of the letters; the simple mode of [rag.py] and [app.py],
    which searches the phrase anywhere in the text, drops it. *)
Theorem media_omitted_placeholder_kept :
  is_system_message U (u "<Media omitted>") = false
  /\ kept (filter_item U 0 (item_of "Ana" "<Media omitted>" "15/03/2023, 14:30")) = true
  /\ kept (filter_item U 0 (item_of "Ana" "<media omitted>" "15/03/2023, 14:30")) = true
  /\ kept (preprocess_item U 0 (item_of "Ana" "<Media omitted>" "15/03/2023, 14:30")) = false.
Proof. repeat split; vm_compute; reflexivity. Qed.

End NormalizerProperties.

(** ** Timestamps *)

Section TimestampProperties.

Variable U : unicode_db.

Lemma parse_timestamp_four_digit_year :
  parse_timestamp U (u "15/03/2023, 14:30")
  = Some {| year := 2023; month := 3; day := 15;
            hour := 14; minute := 30; second := 0; microsecond := 0 |}.
Proof. vm_compute. reflexivity. Qed.

Lemma parse_timestamp_two_digit_year :
  parse_timestamp U (u "15/03/23, 14:30")
  = Some {| year := 2023; month := 3; day := 15;
            hour := 14; minute := 30; second := 0; microsecond := 0 |}.
Proof. vm_compute. reflexivity. Qed.

(** When no format parses the text and a fallback pattern is not
    found, the result is [None]; nothing is raised. *)
Lemma parse_timestamp_none (timestamp_str : str) :
  try_formats U (strip U timestamp_str) formats = None ->
  re_search (date_pattern U) timestamp_str = None
  \/ re_search (time_pattern U) timestamp_str = None ->
  parse_timestamp U timestamp_str = None.
Proof.
  intros Hf Hp. unfold parse_timestamp.
  destruct timestamp_str as [|c rest]; [reflexivity |].
  rewrite Hf. unfold fallback.
  destruct Hp as [-> | Hp]; [reflexivity |].
  rewrite Hp. destruct (re_search (date_pattern U) (c :: rest)); reflexivity.
Qed.

(** In the fallback a year below 100 is moved to 2000 and after. *)
Lemma fallback_two_digit_year_99 :
  try_formats U (strip U (u "15/03/99 14:30")) formats = None
  /\ fallback U (u "15/03/99 14:30")
     = Some {| year := 2099; month := 3; day := 15;
               hour := 14; minute := 30; second := 0; microsecond := 0 |}.
Proof. split; vm_compute; reflexivity. Qed.

(** The two rules for a two-digit year.  Under [%y] the value [v] of
    the two digits becomes [2000 + v] up to 68 and [1900 + v] from 69;
    in the fallback a year below 100 becomes [2000 + year], whatever
    it is. *)
Lemma strptime_y_pivot (text : str) (f f' : fields) :
  set_field U (chr "y") text f = Ok f' ->
  exists v, py_int U text = Ok v
            /\ f_year f' = if (v <=? 68)%Z then (v + 2000)%Z else (v + 1900)%Z.
Proof.
  unfold set_field. destruct (py_int U text) as [v|e]; [| discriminate].
  change (cp_eqb (chr "y") (chr "y")) with true. cbv iota.
  intros [= <-]. exists v. split; reflexivity.
Qed.

Lemma fallback_year (timestamp_str : str) (d : datetime) :
  fallback U timestamp_str = Some d ->
  exists day_ month_ year_ : Z,
    option_map (ints U) (re_search (date_pattern U) timestamp_str)
    = Some (Ok [day_; month_; year_])
    /\ year d = if (year_ <? 100)%Z then (year_ + 2000)%Z else year_.
Proof.
  unfold fallback.
  destruct (re_search (date_pattern U) timestamp_str) as [dg|];
    [| discriminate].
  destruct (re_search (time_pattern U) timestamp_str) as [tg|];
    [| discriminate].
  cbn [option_map].
  destruct (ints U dg) as [[|a [|b [|c [|x l]]]]|e]; try discriminate.
  destruct (ints U tg) as [[|h [|mi [|y l]]]|e]; try discriminate.
  unfold make_datetime.
  destruct (_ && _); [| discriminate].
  intros [= <-]. exists a, b, c. split; reflexivity.
Qed.

(** C8 at the input "15/03/99, 14:30".  The text is parsed by the
    second format, whose [%y] reads 69 to 99 as 1969 to 1999: the year
    is 1999.  The fallback of the same function, reached when the
    comma is missing, reads the same two digits as 2099. *)
Theorem two_digit_year_99_is_1999 :
  parse_timestamp U (u "15/03/99, 14:30")
  = Some {| year := 1999; month := 3; day := 15;
            hour := 14; minute := 30; second := 0; microsecond := 0 |}
  /\ strptime U (u "15/03/99, 14:30") (u "%d/%m/%y, %H:%M")
     = Ok {| year := 1999; month := 3; day := 15;
             hour := 14; minute := 30; second := 0; microsecond := 0 |}
  /\ parse_timestamp U (u "15/03/99 14:30")
     = Some {| year := 2099; month := 3; day := 15;
               hour := 14; minute := 30; second := 0; microsecond := 0 |}.
Proof. repeat split; vm_compute; reflexivity. Qed.

End TimestampProperties.

(** ** Participants *)

Lemma set_of_is_iteration : set_iteration set_of.
Proof. intros xs. split; [apply set_of_NoDup | apply set_of_In]. Qed.

Lemma last_added_first_is_iteration : set_iteration last_added_first.
Proof.
  intros xs. unfold last_added_first. split.
  - apply NoDup_rev, set_of_NoDup.
  - intros x. rewrite <- in_rev. apply set_of_In.
Qed.

(** C9 as the program has it.  The participants field of a document is
    the authors of its messages, each once, joined with ", ", in the
    order in which iterating over a set gives them, which is a
    rearrangement of the first-seen order. *)
Theorem participants_are_distinct_authors
  (U : unicode_db) (list_of_set : list str -> list str)
  (Hset : set_iteration list_of_set) (doc_id : nat) (unit : list msg) :
  participants (doc_metadata (conversation_document U list_of_set doc_id unit))
  = join (u ", ") (participants_list list_of_set unit)
  /\ participants (doc_metadata (chunk_document U list_of_set doc_id unit))
     = join (u ", ") (participants_list list_of_set unit)
  /\ NoDup (participants_list list_of_set unit)
  /\ (forall a, In a (participants_list list_of_set unit)
                <-> exists m, In m unit /\ author m = a)
  /\ Permutation (participants_list list_of_set unit)
                 (set_of (map author unit)).
Proof.
  unfold participants_list.
  destruct (Hset (map author unit)) as [Hn Hi].
  split; [reflexivity |]. split; [reflexivity |].
  split; [assumption |]. split.
  - intros a. rewrite Hi, in_map_iff. split.
    + intros (m & E & Hm). exists m. split; assumption.
    + intros (m & Hm & E). exists m. split; assumption.
  - apply NoDup_Permutation; [assumption | apply set_of_NoDup |].
    intros a. rewrite Hi, set_of_In. reflexivity.
Qed.

(** C9 as stated fails: an iteration order that gives the element added
    last first yields "Bia, Ana" for a unit in which Ana writes before
    Bia. *)
Lemma participants_not_in_first_seen_order :
  exists list_of_set : list str -> list str,
    set_iteration list_of_set
    /\ participants_of list_of_set
         [sample_msg "Ana" 0; sample_msg "Bia" 1; sample_msg "Ana" 2]
       = u "Bia, Ana"
    /\ first_seen_participants
         [sample_msg "Ana" 0; sample_msg "Bia" 1; sample_msg "Ana" 2]
       = u "Ana, Bia"
    /\ participants_of list_of_set
         [sample_msg "Ana" 0; sample_msg "Bia" 1; sample_msg "Ana" 2]
       <> first_seen_participants
            [sample_msg "Ana" 0; sample_msg "Bia" 1; sample_msg "Ana" 2].
Proof.
  exists last_added_first. split; [apply last_added_first_is_iteration |].
  split; [vm_compute; reflexivity |].
  split; [vm_compute; reflexivity |].
  vm_compute. discriminate.
Qed.

(** ** Batched submission *)

Section IngestionProperties.

Variable D S_ E : Type.
Variable from_documents : list D -> result E S_.
Variable add_documents : S_ -> list D -> S_ * option E.

Lemma logged_errors_app (a b : list (log_line E)) :
  logged_errors (a ++ b) = logged_errors a ++ logged_errors b.
Proof.
  induction a as [|l a IH]; [reflexivity |].
  destruct l; simpl; rewrite ?IH; reflexivity.
Qed.

Lemma announced_app (a b : list (log_line E)) :
  announced (a ++ b) = announced a ++ announced b.
Proof.
  induction a as [|l a IH]; [reflexivity |].
  destruct l; simpl; rewrite ?IH; reflexivity.
Qed.

(** The loop of line 448 appends every later batch in order, whatever
    fails, and prints one error line for each exception. *)
Lemma batch_loop_submit (documents : list D) (total : nat) (ks : list nat)
  (s : S_) (printed : list (log_line E)) :
  let batches :=
    map (fun k => slice documents (k * 10)
                        (Nat.min (k * 10 + 10) (length documents))) ks in
  let out := fold_left (batch_step add_documents documents total) ks
                       (s, printed) in
  fst out = fst (submit add_documents s batches)
  /\ logged_errors (snd out)
     = logged_errors printed ++ snd (submit add_documents s batches)
  /\ announced (snd out) = announced printed ++ map (fun k => k + 1) ks.
Proof.
  revert s printed. induction ks as [|k ks IH]; intros s printed.
  - cbn. rewrite !app_nil_r. auto.
  - cbn [map fold_left submit].
    remember (batch_step add_documents documents total (s, printed) k)
      as st eqn:Est.
    unfold batch_step, batch_size in Est.
    destruct (add_documents s _) as [s' [e|]]; subst st;
      match goal with
      | |- context [fold_left _ ks (s', ?p)] =>
          destruct (IH s' p) as (H1 & H2 & H3)
      end;
      cbv zeta in H1, H2, H3;
      destruct (submit add_documents s' _) as [s'' es]; cbn [fst snd] in *;
      rewrite H1, H2, H3, !logged_errors_app, !announced_app; cbn;
      rewrite ?app_nil_r, <- ?app_assoc; auto.
Qed.

(** The same for the loop of [app.py]. *)
Lemma app_batch_loop_submit (documents : list D) (starts : list nat)
  (s : S_) (printed : list (log_line E)) :
  let batches := map (fun i => slice documents i (i + 5)) starts in
  let out := fold_left (app_batch_step add_documents documents) starts
                       (s, printed) in
  fst out = fst (submit add_documents s batches)
  /\ logged_errors (snd out)
     = logged_errors printed ++ snd (submit add_documents s batches).
Proof.
  revert s printed. induction starts as [|i starts IH]; intros s printed.
  - cbn. rewrite !app_nil_r. auto.
  - cbn [map fold_left submit].
    remember (app_batch_step add_documents documents (s, printed) i)
      as st eqn:Est.
    unfold app_batch_step, app_batch_size in Est.
    destruct (add_documents s _) as [s' [e|]]; subst st;
      match goal with
      | |- context [fold_left _ starts (s', ?p)] =>
          destruct (IH s' p) as (H1 & H2)
      end;
      cbv zeta in H1, H2;
      destruct (submit add_documents s' _) as [s'' es]; cbn [fst snd] in *;
      rewrite H1, H2, !logged_errors_app; cbn;
      rewrite ?app_nil_r, <- ?app_assoc; auto.
Qed.

End IngestionProperties.

(** C5 as the program has it.  The first batch goes to the creation
    call and every later batch to the append call, in order.  An
    exception of an append call is printed and the loop goes on with
    the next batch; nothing is raised ([teste.py] returns [None] when
    the creation itself fails, [app.py] lets that exception through).
    No count of failures is kept: what comes back is the store.  With
    a stub that fails on batch 3 of 5 the run completes, the store
    holds the documents of the four other batches and one error line is
    printed. *)
Theorem later_batch_failure_does_not_stop_the_run
  (D S_ E : Type) (from_documents : list D -> result E S_)
  (add_documents : S_ -> list D -> S_ * option E) (documents : list D) :
  match from_documents (slice documents 0 10) with
  | Ok s0 =>
      let run := store_in_batches from_documents add_documents documents in
      let sent := submit add_documents s0 (later_batches documents) in
      fst run = Some (fst sent)
      /\ logged_errors (snd run) = snd sent
      /\ announced (snd run) = seq 2 ((length documents + 10 - 1) / 10 - 1)
  | Raise e =>
      fst (store_in_batches from_documents add_documents documents) = None
  end
  /\ match from_documents (slice documents 0 5) with
     | Ok s0 =>
         let run := create_vector_database_with_logging
                      from_documents add_documents documents in
         let sent := submit add_documents s0 (app_later_batches documents) in
         fst run = Ok (fst sent) /\ logged_errors (snd run) = snd sent
     | Raise e =>
         fst (create_vector_database_with_logging
                from_documents add_documents documents) = Raise e
     end
  /\ (let run := store_in_batches (stub_from_documents fails_on_3)
                   (stub_add_documents fails_on_3) (seq 0 50) in
      option_map (@held nat) (fst run) = Some (seq 0 20 ++ seq 30 20)
      /\ logged_errors (snd run) = [StubFailure 3]
      /\ batch_errors (snd run) = [LogBatchError 3 (StubFailure 3)])
  /\ (let run := create_vector_database_with_logging
                   (stub_from_documents fails_on_3)
                   (stub_add_documents fails_on_3) (seq 0 25) in
      match fst run with
      | Ok s => held s = seq 0 10 ++ seq 15 10
      | Raise _ => False
      end
      /\ batch_errors (snd run) = [LogBatchError 3 (StubFailure 3)]).
Proof.
  split; [| split; [| split]].
  - unfold store_in_batches, batch_size.
    destruct (from_documents (slice documents 0 10)) as [s0|e];
      [| reflexivity].
    cbv zeta.
    pose proof (batch_loop_submit add_documents documents
                  ((length documents + 10 - 1) / 10)
                  (seq 1 ((length documents + 10 - 1) / 10 - 1)) s0
                  ([LogConfig (length documents) 10
                      ((length documents + 10 - 1) / 10); LogCreating]
                   ++ [LogCreated])) as H.
    cbv zeta in H. destruct H as (H1 & H2 & H3).
    destruct (fold_left _ _ _) as [s printed]. cbn [fst snd] in *.
    unfold later_batches. rewrite H1. split; [reflexivity |].
    rewrite logged_errors_app, announced_app, H2, H3.
    cbn [logged_errors announced app]. rewrite !app_nil_r.
    split; [reflexivity |].
    rewrite <- (seq_shift _ 1). apply map_ext. intros k. lia.
  - unfold create_vector_database_with_logging, app_batch_size.
    destruct (from_documents (slice documents 0 5)) as [s0|e];
      [| reflexivity].
    cbv zeta.
    pose proof (app_batch_loop_submit add_documents documents
                  (py_range_from 5 (length documents) 5) s0
                  [LogCreating; LogLote 1 0 (length documents)]) as H.
    cbv zeta in H. destruct H as (H1 & H2).
    destruct (fold_left _ _ _) as [s printed]. cbn [fst snd] in *.
    unfold app_later_batches. rewrite H1. split; [reflexivity |].
    rewrite logged_errors_app, H2.
    cbn [logged_errors app]. rewrite !app_nil_r. reflexivity.
  - vm_compute. auto.
  - vm_compute. auto.
Qed.

(** C5 as stated fails: nothing counts or reports the failure.  In the
    run where batch 3 of 5 fails, what is printed is the lines below:
    the last progress line says 5 of 5 and the closing line is the
    success line, as in a run without failures; and what is returned
    is the store, holding what it would hold after a run without
    failures over the forty other documents. *)
Lemma failed_batch_not_counted_nor_reported :
  let failing := store_in_batches (stub_from_documents fails_on_3)
                   (stub_add_documents fails_on_3) (seq 0 50) in
  let clean := store_in_batches (stub_from_documents never_fails)
                 (stub_add_documents never_fails) (seq 0 50) in
  let forty := store_in_batches (stub_from_documents never_fails)
                 (stub_add_documents never_fails) (seq 0 20 ++ seq 30 20) in
  snd failing
  = [ LogConfig 50 10 5; LogCreating; LogCreated;
      LogBatch 2 5 10 19; LogProgress 2 5;
      LogBatch 3 5 20 29; LogBatchError 3 (StubFailure 3);
      LogBatch 4 5 30 39; LogProgress 4 5;
      LogBatch 5 5 40 49; LogProgress 5 5;
      LogSuccess ]
  /\ skipn 10 (snd failing) = [LogProgress 5 5; LogSuccess]
  /\ skipn 10 (snd clean) = skipn 10 (snd failing)
  /\ option_map (@held nat) (fst failing) = option_map (@held nat) (fst forty).
Proof. vm_compute. auto. Qed.

(** A run of C9's theorem: three messages by Ana, Bia and Ana, under
    the iteration order that gives the element added last first. *)
Lemma participants_are_distinct_authors_witness :
  set_iteration last_added_first
  /\ (participants
        (doc_metadata
           (conversation_document latin1_db last_added_first 0
              [sample_msg "Ana" 0; sample_msg "Bia" 1; sample_msg "Ana" 2]))
      = join (u ", ")
             (participants_list last_added_first
                [sample_msg "Ana" 0; sample_msg "Bia" 1; sample_msg "Ana" 2])
      /\ participants
           (doc_metadata
              (chunk_document latin1_db last_added_first 0
                 [sample_msg "Ana" 0; sample_msg "Bia" 1; sample_msg "Ana" 2]))
         = join (u ", ")
                (participants_list last_added_first
                   [sample_msg "Ana" 0; sample_msg "Bia" 1; sample_msg "Ana" 2])
      /\ NoDup (participants_list last_added_first
                  [sample_msg "Ana" 0; sample_msg "Bia" 1; sample_msg "Ana" 2])
      /\ (forall a,
            In a (participants_list last_added_first
                    [sample_msg "Ana" 0; sample_msg "Bia" 1; sample_msg "Ana" 2])
            <-> exists m,
                  In m [sample_msg "Ana" 0; sample_msg "Bia" 1;
                        sample_msg "Ana" 2]
                  /\ author m = a)
      /\ Permutation
           (participants_list last_added_first
              [sample_msg "Ana" 0; sample_msg "Bia" 1; sample_msg "Ana" 2])
           (set_of (map author
              [sample_msg "Ana" 0; sample_msg "Bia" 1; sample_msg "Ana" 2]))).
Proof.
  split.
  - apply last_added_first_is_iteration.
  - apply (participants_are_distinct_authors latin1_db
             last_added_first_is_iteration 0
             [sample_msg "Ana" 0; sample_msg "Bia" 1; sample_msg "Ana" 2]).
Defined.

(** * Further properties of the program *)

(** ** Batches: nothing left out, nothing sent twice *)

Lemma firstn_add_skipn {A} (a b : nat) (l : list A) :
  firstn a l ++ firstn b (skipn a l) = firstn (a + b) l.
Proof.
  revert l; induction a as [|a IH]; intros l; [reflexivity |].
  destruct l as [|x l]; cbn [firstn skipn Nat.add app].
  - rewrite firstn_nil. reflexivity.
  - rewrite IH. reflexivity.
Qed.

(** Consecutive slices of width [b] from 0 make up a prefix. *)
Lemma consecutive_slices {A} (b m : nat) (l : list A) :
  concat (map (fun k => slice l (k * b) (k * b + b)) (seq 0 m))
  = firstn (m * b) l.
Proof.
  induction m as [|m IH]; [reflexivity |].
  rewrite seq_S, map_app, concat_app, IH. cbn [map concat Nat.add].
  rewrite app_nil_r. unfold slice.
  replace (m * b + b - m * b) with b by lia.
  rewrite firstn_add_skipn. f_equal. lia.
Qed.

Lemma slice_clipped {A} (l : list A) (s b : nat) :
  slice l s (Nat.min (s + b) (length l)) = slice l s (s + b).
Proof.
  unfold slice. destruct (Nat.le_gt_cases (s + b) (length l)) as [H | H].
  - rewrite Nat.min_l by assumption. reflexivity.
  - rewrite Nat.min_r by lia.
    rewrite !firstn_all2; try reflexivity; rewrite length_skipn; lia.
Qed.

Lemma later_batches_slices {D} (documents : list D) :
  later_batches documents
  = map (fun k => slice documents (k * 10) (k * 10 + 10))
        (seq 1 ((length documents + 10 - 1) / 10 - 1)).
Proof.
  unfold later_batches. apply map_ext. intros k. apply slice_clipped.
Qed.

Lemma batches_partition {D} (documents : list D) :
  slice documents 0 10 ++ concat (later_batches documents) = documents.
Proof.
  rewrite later_batches_slices.
  set (m := (length documents + 10 - 1) / 10).
  assert (Hm : length documents <= m * 10).
  { subst m. divmod (length documents + 10 - 1) 10. lia. }
  destruct m as [|m].
  - destruct documents; [reflexivity | simpl in Hm; lia].
  - replace (S m - 1) with m by lia.
    pose proof (consecutive_slices 10 (S m) documents) as H.
    cbn [seq map concat] in H. cbn [Nat.mul Nat.add] in H.
    rewrite <- seq_shift, map_map in H.
    rewrite <- seq_shift, map_map.
    change (slice documents 0 10) with (slice documents 0 (0 + 10)).
    etransitivity; [| apply firstn_all2; exact Hm].
    etransitivity; [| exact H]. reflexivity.
Qed.

Lemma app_batches_partition {D} (documents : list D) :
  slice documents 0 5 ++ concat (app_later_batches documents) = documents.
Proof.
  unfold app_later_batches, py_range_from.
  set (c := (length documents - 5 + 5 - 1) / 5).
  assert (Hc : length documents <= S c * 5).
  { subst c. divmod (length documents - 5 + 5 - 1) 5. lia. }
  pose proof (consecutive_slices 5 (S c) documents) as H.
  cbn [seq map concat] in H.
  rewrite <- seq_shift, map_map in H. rewrite map_map.
  etransitivity; [| apply firstn_all2; exact Hc].
  etransitivity; [| exact H]. reflexivity.
Qed.

Lemma rag_batches_partition {D} (documents : list D) :
  slice documents 0 10 ++ concat (rag_later_batches documents) = documents.
Proof.
  unfold rag_later_batches, py_range_from.
  set (c := (length documents - 10 + 10 - 1) / 10).
  assert (Hc : length documents <= S c * 10).
  { subst c. divmod (length documents - 10 + 10 - 1) 10. lia. }
  pose proof (consecutive_slices 10 (S c) documents) as H.
  cbn [seq map concat] in H.
  rewrite <- seq_shift, map_map in H. rewrite map_map.
  etransitivity; [| apply firstn_all2; exact Hc].
  etransitivity; [| exact H]. reflexivity.
Qed.

(** A store that never fails takes whatever it is sent. *)
Lemma submit_never_fails {D} (s : stub_store D) (batches : list (list D)) :
  submit (stub_add_documents never_fails) s batches
  = ({| held := held s ++ concat batches;
        calls := calls s + length batches |}, []).
Proof.
  revert s; induction batches as [|b rest IH]; intros s.
  - cbn. rewrite app_nil_r, Nat.add_0_r. destruct s; reflexivity.
  - cbn [submit]. unfold stub_add_documents at 1, never_fails at 1.
    rewrite IH. cbn [held calls concat length]. rewrite <- app_assoc.
    replace (S (calls s) + length rest) with (calls s + S (length rest))
      by lia.
    reflexivity.
Qed.

Lemma later_batches_sizes {D} (documents : list D) :
  Forall (fun b => 1 <= length b <= 10) (later_batches documents).
Proof.
  rewrite later_batches_slices. apply Forall_forall. intros b Hb.
  apply in_map_iff in Hb. destruct Hb as (k & <- & Hk).
  apply in_seq in Hk. rewrite slice_length.
  divmod (length documents + 10 - 1) 10. lia.
Qed.

(** X1. [teste.py] cuts the documents into the first ten and later
    batches of one to ten documents which, put together in order, are
    the documents: nothing is left out and nothing is sent twice.  A
    store that accepts every call ends up holding exactly the
    documents, in order, and no error line is printed. *)
Theorem store_in_batches_sends_each_document_once
  (D : Type) (documents : list D) :
  slice documents 0 10 ++ concat (later_batches documents) = documents
  /\ Forall (fun b => 1 <= length b <= 10) (later_batches documents)
  /\ (let run := store_in_batches (stub_from_documents never_fails)
                   (stub_add_documents never_fails) documents in
      option_map (@held D) (fst run) = Some documents
      /\ logged_errors (snd run) = []).
Proof.
  split; [apply batches_partition |].
  split; [apply later_batches_sizes |].
  cbv zeta. unfold store_in_batches, batch_size.
  unfold stub_from_documents at 1 2. unfold never_fails at 1 3. cbv iota.
  pose proof (batch_loop_submit (stub_add_documents never_fails) documents
                ((length documents + 10 - 1) / 10)
                (seq 1 ((length documents + 10 - 1) / 10 - 1))
                {| held := slice documents 0 10; calls := 1 |}
                ([LogConfig (length documents) 10
                    ((length documents + 10 - 1) / 10); LogCreating]
                 ++ [LogCreated])) as H.
  cbv zeta in H. destruct H as (H1 & H2 & _).
  fold (later_batches documents) in H1, H2.
  rewrite submit_never_fails in H1, H2. cbn [fst snd held] in H1, H2.
  destruct (fold_left _ _ _) as [s printed]. cbn [fst snd] in *.
  cbn [option_map]. rewrite H1. cbn [held].
  rewrite batches_partition, logged_errors_app, H2. auto.
Qed.

(** X2. [app.py] cuts the documents into the first five and later
    batches of five which, put together in order, are the documents:
    nothing is left out and nothing is sent twice.  A store that
    accepts every call ends up holding exactly the documents, in
    order, after one call for each batch, and no error line is
    printed. *)
Theorem app_batches_send_each_document_once
  (D : Type) (documents : list D) :
  slice documents 0 5 ++ concat (app_later_batches documents) = documents
  /\ (let run := create_vector_database_with_logging
                   (stub_from_documents never_fails)
                   (stub_add_documents never_fails) documents in
      fst run = Ok {| held := documents;
                      calls := 1 + length (app_later_batches documents) |}
      /\ logged_errors (snd run) = []).
Proof.
  split; [apply app_batches_partition |].
  cbv zeta. unfold create_vector_database_with_logging, app_batch_size.
  unfold stub_from_documents at 1 2. unfold never_fails at 1 3. cbv iota.
  pose proof (app_batch_loop_submit (stub_add_documents never_fails) documents
                (py_range_from 5 (length documents) 5)
                {| held := slice documents 0 5; calls := 1 |}
                [LogCreating; LogLote 1 0 (length documents)]) as H.
  cbv zeta in H. destruct H as (H1 & H2).
  fold (app_later_batches documents) in H1, H2.
  rewrite submit_never_fails in H1, H2. cbn [fst snd held calls] in H1, H2.
  destruct (fold_left _ _ _) as [s printed]. cbn [fst snd] in *.
  rewrite H1, app_batches_partition, logged_errors_app, H2. auto.
Qed.

(** ** [rag.py]: the unguarded batch loop *)

Lemma add_batches_first_failure (D S_ E : Type)
  (add_documents : S_ -> list D -> S_ * option E) (documents : list D)
  (starts : list nat) (s : S_) (printed : list (log_line E)) :
  fst (Rag.add_batches add_documents documents starts s printed)
  = match snd (submit add_documents s
                 (map (fun i => slice documents i (i + 10)) starts)) with
    | [] => Ok (fst (submit add_documents s
                       (map (fun i => slice documents i (i + 10)) starts)))
    | e :: _ => Raise e
    end.
Proof.
  revert s printed; induction starts as [|i rest IH]; intros s printed.
  - reflexivity.
  - cbn [Rag.add_batches map submit]. unfold Rag.batch_size.
    destruct (add_documents s (slice documents i (i + 10))) as [s' [e|]].
    + destruct (submit add_documents s' _) as [s'' es]. reflexivity.
    + rewrite IH.
      destruct (submit add_documents s' _) as [s'' es]. reflexivity.
Qed.

(** X3. In [rag.py] no store call is guarded: the function raises the
    first exception that a call raises, the creation included, and
    returns the store only when every call succeeded; the store is then
    the one left by sending every later batch of ten in order.  The
    batches put together are the documents, so a store that accepts
    every call ends up holding exactly the documents. *)
Theorem rag_first_failure_aborts
  (D S_ E : Type) (from_documents : list D -> result E S_)
  (add_documents : S_ -> list D -> S_ * option E) (documents : list D) :
  match from_documents (slice documents 0 10) with
  | Raise e =>
      fst (Rag.create_vector_database_with_logging
             from_documents add_documents documents) = Raise e
  | Ok s0 =>
      let sent := submit add_documents s0 (rag_later_batches documents) in
      fst (Rag.create_vector_database_with_logging
             from_documents add_documents documents)
      = match snd sent with
        | [] => Ok (fst sent)
        | e :: _ => Raise e
        end
  end
  /\ slice documents 0 10 ++ concat (rag_later_batches documents) = documents
  /\ fst (Rag.create_vector_database_with_logging
            (stub_from_documents never_fails)
            (stub_add_documents never_fails) documents)
     = Ok {| held := documents;
             calls := 1 + length (rag_later_batches documents) |}.
Proof.
  assert (G : forall (S' E' : Type) (fd : list D -> result E' S')
                     (ad : S' -> list D -> S' * option E'),
             match fd (slice documents 0 10) with
             | Raise e =>
                 fst (Rag.create_vector_database_with_logging fd ad documents)
                 = Raise e
             | Ok s0 =>
                 fst (Rag.create_vector_database_with_logging fd ad documents)
                 = match snd (submit ad s0 (rag_later_batches documents)) with
                   | [] => Ok (fst (submit ad s0 (rag_later_batches documents)))
                   | e :: _ => Raise e
                   end
             end).
  { intros S' E' fd ad.
    unfold Rag.create_vector_database_with_logging, Rag.batch_size.
    destruct (fd (slice documents 0 10)) as [s0|e]; [| reflexivity].
    pose proof (add_batches_first_failure ad documents
                  (py_range_from 10 (length documents) 10) s0
                  [LogCreating; LogLote 1 0 (length documents)]) as H.
    fold (rag_later_batches documents) in H.
    destruct (Rag.add_batches _ _ _ _ _) as [[s|e] printed];
      cbn [fst] in *; exact H. }
  split; [apply G |]. split; [apply rag_batches_partition |].
  pose proof (G _ _ (stub_from_documents never_fails)
                (@stub_add_documents D never_fails)) as H.
  unfold stub_from_documents at 1 in H. unfold never_fails at 1 in H.
  cbv iota in H. rewrite H, submit_never_fails. cbn [fst snd held calls].
  rewrite rag_batches_partition. reflexivity.
Qed.

(** ** The boundary detector: sizes and two-party chats *)

Section DetectorSizes.

Variable U : unicode_db.

(** The size cap keeps the accumulator at 101 messages at most. *)
Lemma detector_step_cap (st : detector_state) (m : msg) :
  length (snd st) <= 101 /\ Forall (fun c => length c <= 101) (fst st) ->
  length (snd (detector_step U st m)) <= 101
  /\ Forall (fun c => length c <= 101) (fst (detector_step U st m)).
Proof.
  destruct st as [convs cur]. unfold detector_step. cbn [fst snd].
  intros [Hl Hf].
  destruct (py_last cur) as [last_msg|] eqn:El.
  - destruct (should_split U cur last_msg m && (5 <=? length cur)) eqn:E;
      cbn [fst snd].
    + split; [simpl; lia |].
      apply Forall_app. split; [assumption | constructor; auto].
    + split; [| assumption].
      rewrite length_app. cbn [length].
      rewrite should_split_orb in E.
      destruct (100 <? length cur) eqn:E100.
      * apply Nat.ltb_lt in E100.
        rewrite orb_true_r, orb_true_l in E. cbn [andb] in E.
        apply Nat.leb_gt in E. lia.
      * apply Nat.ltb_ge in E100. lia.
  - cbn [fst snd]. split; [| assumption].
    unfold py_last in El. destruct cur as [|x cur]; [simpl; lia |].
    apply nth_error_None in El. simpl in El. lia.
Qed.

Lemma detector_run_cap (messages : list msg) :
  length (snd (detector_run U messages)) <= 101
  /\ Forall (fun c => length c <= 101) (fst (detector_run U messages)).
Proof.
  induction messages as [|m messages IH] using rev_ind.
  - split; [simpl; lia | constructor].
  - rewrite detector_run_snoc. apply detector_step_cap. assumption.
Qed.

Lemma concat_length_bounds {A} (lo hi : nat) (ls : list (list A)) :
  Forall (fun c => lo <= length c <= hi) ls ->
  lo * length ls <= length (concat ls) <= hi * length ls.
Proof.
  induction 1 as [|c ls Hc _ IH]; [simpl; lia |].
  cbn [concat length]. rewrite length_app. lia.
Qed.

(** X4. Every segment has between 5 and 101 messages: the size cap
    closes a segment with the message after its 101st.  A transcript of
    [N] messages therefore gives at most [N / 5] segments (none when
    [N < 5]) and, the dropped tail being shorter than 5, enough
    segments of 101 to hold all but 4 messages. *)
Theorem segments_have_5_to_101_messages (messages : list msg) :
  let segments := detect_conversation_boundaries_conservative U messages in
  Forall (fun seg => 5 <= length seg <= 101) segments
  /\ 5 * length segments <= length messages
  /\ length messages < 101 * length segments + 5.
Proof.
  cbv zeta. rewrite detect_final.
  destruct (detector_run_inv U messages) as (Hc & Hf & _).
  destruct (detector_run_cap messages) as (Hl & Hcap).
  destruct (detector_run U messages) as [convs cur]. cbn [fst snd] in *.
  assert (Hconvs : Forall (fun c => 5 <= length c <= 101) convs).
  { rewrite Forall_forall in *. intros c Hin. split; auto. }
  destruct (5 <=? length cur) eqn:E.
  - apply Nat.leb_le in E.
    assert (Hall : Forall (fun c => 5 <= length c <= 101) (convs ++ [cur])).
    { apply Forall_app. split; [assumption | constructor; auto]. }
    split; [assumption |].
    pose proof (concat_length_bounds Hall) as Hb.
    rewrite concat_app in Hb. cbn [concat] in Hb.
    rewrite app_nil_r, Hc in Hb. lia.
  - apply Nat.leb_gt in E. split; [assumption |].
    pose proof (concat_length_bounds Hconvs) as Hb.
    rewrite <- Hc, length_app. lia.
Qed.

(** In a detector state the accumulator holds messages of the
    transcript only. *)
Lemma accumulator_incl (messages : list msg) :
  incl (snd (detector_run U messages)) messages.
Proof.
  destruct (detector_run_inv U messages) as (Hc & _ & _).
  intros x Hx. rewrite <- Hc. apply in_or_app. right. assumption.
Qed.

Lemma distinct_authors_le (part whole : list msg) :
  incl part whole ->
  length (nodup str_eq_dec (map author part))
  <= length (nodup str_eq_dec (map author whole)).
Proof.
  intros H. apply NoDup_incl_length; [apply NoDup_nodup |].
  intros a Ha. apply nodup_In in Ha. apply nodup_In.
  apply in_map_iff in Ha. destruct Ha as (m & <- & Hm).
  apply in_map. apply H. assumption.
Qed.

Lemma last_n_incl {A} (n : nat) (l : list A) : incl (last_n n l) l.
Proof.
  unfold last_n. intros x Hx.
  rewrite <- (firstn_skipn (length l - n) l). apply in_or_app. right.
  assumption.
Qed.

(** X5. In a chat of at most two authors the participant-shift
    criterion never fires: while such a transcript is read, a split is
    forced only by a gap of more than 24 hours or by the size cap. *)
Theorem two_party_chat_splits_on_gap_or_size_only
  (pre : list msg) (prev m : msg)
  (Htwo : length (nodup str_eq_dec (map author (pre ++ [prev]))) <= 2) :
  let acc := snd (detector_run U (pre ++ [prev])) in
  ~ participant_shift acc m
  /\ (should_split U acc prev m = true
      <-> temporal_gap U prev m \/ size_cap acc).
Proof.
  cbv zeta.
  assert (Hno : ~ participant_shift
                  (snd (detector_run U (pre ++ [prev]))) m).
  { unfold participant_shift. cbv zeta. intros [Hgt _].
    pose proof (distinct_authors_le
                  (incl_tran (last_n_incl 20 _)
                             (accumulator_incl (pre ++ [prev])))) as Hle.
    lia. }
  split; [assumption |].
  rewrite should_split_iff. tauto.
Qed.

End DetectorSizes.

(** A run of the theorem: Ana and Bia, ten messages three days apart. *)
Lemma two_party_chat_splits_on_gap_or_size_only_witness :
  length (nodup str_eq_dec (map author (firstn 9 two_days ++ [timed_msg "Bia" "18/03/2023, 15:00" 9]))) <= 2
  /\ (let acc := snd (detector_run latin1_db
                        (firstn 9 two_days
                         ++ [timed_msg "Bia" "18/03/2023, 15:00" 9])) in
      ~ participant_shift acc (sample_msg "Caio" 10)
      /\ (should_split latin1_db acc (timed_msg "Bia" "18/03/2023, 15:00" 9)
            (sample_msg "Caio" 10) = true
          <-> temporal_gap latin1_db (timed_msg "Bia" "18/03/2023, 15:00" 9)
                (sample_msg "Caio" 10)
              \/ size_cap acc)).
Proof.
  split.
  - vm_compute. lia.
  - apply (two_party_chat_splits_on_gap_or_size_only latin1_db
             (firstn 9 two_days) (timed_msg "Bia" "18/03/2023, 15:00" 9)
             (sample_msg "Caio" 10)).
    vm_compute. lia.
Defined.

(** ** The overlap windower with any size and overlap *)

Lemma in_py_range (stop step i : nat) :
  In i (py_range stop step) -> exists k, i = k * step /\ (0 < step -> i < stop).
Proof.
  unfold py_range. intros H. apply in_map_iff in H.
  destruct H as (k & <- & Hk). exists k. split; [reflexivity |].
  intros Hs. apply in_seq in Hk.
  divmod (stop + step - 1) step. nia.
Qed.

(** X6. Whatever the size and the overlap, every chunk returned is a
    run of consecutive messages that starts at a multiple of
    [chunk_size - overlap] and has between 5 and [chunk_size]
    messages, so a size below 5 gives no chunk at all; the call raises
    only for a transcript that is not empty and equal size and
    overlap. *)
Theorem chunks_are_slices_of_5_to_size
  (messages : list msg) (chunk_size overlap : nat) :
  match create_overlapping_chunks messages chunk_size overlap with
  | Ok chunks =>
      Forall (fun c =>
                5 <= length c <= chunk_size
                /\ exists k,
                     k * (chunk_size - overlap) < length messages
                     /\ c = slice messages (k * (chunk_size - overlap))
                              (k * (chunk_size - overlap) + chunk_size))
             chunks
      /\ (chunk_size < 5 -> chunks = [])
  | Raise _ => messages <> [] /\ chunk_size = overlap
  end.
Proof.
  unfold create_overlapping_chunks.
  destruct messages as [|m0 rest] eqn:Em; [split; [constructor | reflexivity] |].
  rewrite <- Em.
  destruct (chunk_size =? overlap) eqn:Eq.
  - apply Nat.eqb_eq in Eq. split; [subst; discriminate | assumption].
  - apply Nat.eqb_neq in Eq.
    destruct (chunk_size <? overlap) eqn:Elt;
      [split; [constructor | reflexivity] |].
    apply Nat.ltb_ge in Elt.
    rewrite chunk_loop_filter. cbn [app].
    assert (HF : Forall
              (fun c => 5 <= length c <= chunk_size
                 /\ exists k,
                      k * (chunk_size - overlap) < length messages
                      /\ c = slice messages (k * (chunk_size - overlap))
                               (k * (chunk_size - overlap) + chunk_size))
              (filter (fun c => 5 <=? length c)
                 (map (fun i => slice messages i (i + chunk_size))
                      (py_range (length messages) (chunk_size - overlap))))).
    { apply Forall_forall. intros c Hc. apply filter_In in Hc.
      destruct Hc as [Hin Hlen]. apply Nat.leb_le in Hlen.
      apply in_map_iff in Hin. destruct Hin as (i & <- & Hi).
      apply in_py_range in Hi. destruct Hi as (k & -> & Hk).
      split.
      - split; [assumption |]. rewrite slice_length. lia.
      - exists k. split; [apply Hk; lia | reflexivity]. }
    split; [exact HF |].
    intros Hsmall.
    destruct (filter _ _) as [|c l]; [reflexivity |].
    inversion HF as [|? ? [Hc _] _]. lia.
Qed.

Lemma Ok_inj {E A} (a b : A) : @Ok E A a = Ok b -> a = b.
Proof. intros H. injection H. auto. Qed.

(** Two windows of the call of line 307 that follow each other share
    the messages the first has after its 25th: the overlap. *)
Lemma consecutive_windows_overlap (messages : list msg) (k : nat) :
  skipn 25 (slice messages (25 * k) (25 * k + 40))
  = firstn 15 (slice messages (25 * S k) (25 * S k + 40)).
Proof.
  unfold slice. rewrite skipn_firstn_comm, skipn_skipn, firstn_firstn.
  replace (25 * k + 40 - 25 * k - 25) with 15 by lia.
  replace (25 * S k + 40 - 25 * S k) with 40 by lia.
  replace (25 + 25 * k) with (25 * S k) by lia.
  reflexivity.
Qed.

(** X7. Of two windows of the call of line 307 that follow each other,
    the second starts with the messages that the first has after its
    25th, between 5 and 15 of them: each window repeats the end of the
    one before. *)
Theorem consecutive_windows_share_their_overlap
  (messages : list msg) (ws : list (list msg)) (k : nat) (w1 w2 : list msg)
  (Hws : overlap_windows messages = Ok ws)
  (H1 : nth_error ws k = Some w1)
  (H2 : nth_error ws (S k) = Some w2) :
  skipn 25 w1 = firstn 15 w2 /\ 5 <= length (skipn 25 w1) <= 15.
Proof.
  rewrite overlap_windows_eq in Hws. apply Ok_inj in Hws. subst ws.
  assert (Hk : S k < window_count (length messages)).
  { assert (H : S k < length (map (fun k => slice messages (25 * k)
                                                  (25 * k + 40))
                                  (seq 0 (window_count (length messages))))).
    { apply nth_error_Some. rewrite H2. discriminate. }
    rewrite length_map, length_seq in H. exact H. }
  rewrite nth_error_map, nth_error_seq in H1, H2.
  destruct (k <? window_count (length messages)) eqn:E1;
    [| apply Nat.ltb_ge in E1; lia].
  destruct (S k <? window_count (length messages)) eqn:E2;
    [| apply Nat.ltb_ge in E2; lia].
  cbn [option_map Nat.add] in H1, H2.
  assert (E1' : w1 = slice messages (25 * k) (25 * k + 40)) by congruence.
  assert (E2' : w2 = slice messages (25 * S k) (25 * S k + 40))
    by congruence.
  subst w1 w2.
  split; [apply consecutive_windows_overlap |].
  rewrite consecutive_windows_overlap, length_firstn, slice_length.
  pose proof (window_kept_iff (length messages) (S k)) as Hkept.
  rewrite E2 in Hkept. apply Nat.leb_le in Hkept. lia.
Qed.

(** A run of the theorem on sixty messages: windows at 0, 25 and 50. *)
Lemma consecutive_windows_share_their_overlap_witness :
  overlap_windows sixty_messages
  = Ok [slice sixty_messages 0 40; slice sixty_messages 25 65;
        slice sixty_messages 50 90]
  /\ skipn 25 (slice sixty_messages 0 40)
     = firstn 15 (slice sixty_messages 25 65)
  /\ 5 <= length (skipn 25 (slice sixty_messages 0 40)) <= 15.
Proof.
  split; [vm_compute; reflexivity |].
  apply (@consecutive_windows_share_their_overlap sixty_messages
           [slice sixty_messages 0 40; slice sixty_messages 25 65;
            slice sixty_messages 50 90] 0
           (slice sixty_messages 0 40) (slice sixty_messages 25 65));
    vm_compute; reflexivity.
Defined.

(** ** The keyword extractor: which words, in which order *)

Lemma str_eqb_sym (a b : str) : str_eqb a b = str_eqb b a.
Proof.
  destruct (str_eqb a b) eqn:E1, (str_eqb b a) eqn:E2; try reflexivity.
  - apply str_eqb_eq in E1. subst. rewrite str_eqb_refl in E2. discriminate.
  - apply str_eqb_eq in E2. subst. rewrite str_eqb_refl in E1. discriminate.
Qed.

Lemma set_add_cons_other (k w : str) (ks : list str) :
  str_eqb k w = false -> set_add (k :: ks) w = k :: set_add ks w.
Proof.
  intros H. unfold set_add, str_in. cbn [existsb].
  rewrite str_eqb_sym, H. cbn [orb].
  destruct (existsb (str_eqb w) ks); reflexivity.
Qed.

Lemma set_of_snoc (xs : list str) (x : str) :
  set_of (xs ++ [x]) = set_add (set_of xs) x.
Proof. unfold set_of. rewrite fold_left_app. reflexivity. Qed.

(** [increment] on a table that holds a count for each of its keys. *)
Lemma increment_counts (c : str -> nat) (w : str) (ks : list str) :
  NoDup ks ->
  (~ In w ks -> c w = 0) ->
  increment w (map (fun k => (k, c k)) ks)
  = map (fun k => (k, c k + if str_eq_dec w k then 1 else 0)) (set_add ks w).
Proof.
  induction ks as [|k ks IH]; intros Hn Hw.
  - cbn. destruct (str_eq_dec w w) as [_ | N]; [| contradiction].
    rewrite Hw by auto. reflexivity.
  - inversion Hn as [|? ? Hk Hn']; subst.
    cbn [map increment]. destruct (str_eqb k w) eqn:E.
    + apply str_eqb_eq in E. subst k.
      assert (Hs : set_add (w :: ks) w = w :: ks).
      { unfold set_add. replace (str_in w (w :: ks)) with true; [reflexivity |].
        symmetry. apply str_in_In. left. reflexivity. }
      rewrite Hs. cbn [map].
      destruct (str_eq_dec w w) as [_ | N]; [| contradiction].
      f_equal; [f_equal; lia |].
      apply map_ext_in. intros k Hin.
      destruct (str_eq_dec w k) as [-> | _]; [contradiction |].
      f_equal. lia.
    + rewrite set_add_cons_other by assumption. cbn [map].
      destruct (str_eq_dec w k) as [-> | Hne].
      * rewrite str_eqb_refl in E. discriminate.
      * rewrite IH; [f_equal; f_equal; lia | assumption |].
        intros Hnot. apply Hw. intros [-> | Hin]; [| contradiction].
        apply Hne. reflexivity.
Qed.

Lemma count_occ_snoc (l : list str) (w k : str) :
  count_occ str_eq_dec (l ++ [w]) k
  = count_occ str_eq_dec l k + if str_eq_dec w k then 1 else 0.
Proof.
  rewrite count_occ_app. cbn [count_occ].
  destruct (str_eq_dec w k); reflexivity.
Qed.

(** The table of line 100 after the loop: the counted words in the
    order of their first occurrence, each with the number of its
    occurrences. *)
Lemma word_count_table (words : list str) :
  fold_left count_step words []
  = map (fun k => (k, count_occ str_eq_dec (filter counted words) k))
        (set_of (filter counted words)).
Proof.
  induction words as [|w words IH] using rev_ind; [reflexivity |].
  rewrite fold_left_app, IH, filter_app. cbn [fold_left filter].
  unfold count_step. fold (counted w).
  destruct (counted w).
  - rewrite increment_counts.
    + rewrite set_of_snoc. apply map_ext. intros k.
      rewrite count_occ_snoc. reflexivity.
    + apply set_of_NoDup.
    + intros Hnot. rewrite set_of_In in Hnot.
      apply count_occ_not_In. assumption.
  - rewrite app_nil_r. reflexivity.
Qed.

Lemma insert_desc_map {A B} (g : A -> B) (key : B -> nat) (x : A)
  (l : list A) :
  insert_desc key (g x) (map g l)
  = map g (insert_desc (fun a => key (g a)) x l).
Proof.
  induction l as [|y l IH]; [reflexivity |].
  cbn [map insert_desc]. destruct (key (g x) <=? key (g y)).
  - rewrite IH. reflexivity.
  - reflexivity.
Qed.

Lemma sorted_desc_map {A B} (g : A -> B) (key : B -> nat) (xs : list A) :
  sorted_desc key (map g xs) = map g (sorted_desc (fun a => key (g a)) xs).
Proof.
  unfold sorted_desc.
  assert (H : forall acc,
             fold_left (fun s x => insert_desc key x s) (map g xs) (map g acc)
             = map g (fold_left
                        (fun s x => insert_desc (fun a => key (g a)) x s)
                        xs acc)).
  { induction xs as [|x xs IH]; intros acc; [reflexivity |].
    cbn [map fold_left]. rewrite insert_desc_map. apply IH. }
  apply (H []).
Qed.

Lemma insert_desc_ext {A} (key key' : A -> nat) (x : A) (l : list A) :
  key x = key' x -> (forall y, In y l -> key y = key' y) ->
  insert_desc key x l = insert_desc key' x l.
Proof.
  intros Hx. induction l as [|y l IH]; intros Hl; [reflexivity |].
  cbn [insert_desc]. rewrite Hx, (Hl y) by (left; reflexivity).
  rewrite IH by (intros z Hz; apply Hl; right; assumption). reflexivity.
Qed.

Lemma sorted_desc_ext {A} (key key' : A -> nat) (xs : list A) :
  (forall y, In y xs -> key y = key' y) ->
  sorted_desc key xs = sorted_desc key' xs.
Proof.
  unfold sorted_desc. intros H.
  assert (G : forall acc,
             (forall y, In y acc -> key y = key' y) ->
             fold_left (fun s x => insert_desc key x s) xs acc
             = fold_left (fun s x => insert_desc key' x s) xs acc).
  { induction xs as [|x xs IH]; intros acc Hacc; [reflexivity |].
    cbn [fold_left].
    rewrite (insert_desc_ext key key') by (auto; apply H; left; reflexivity).
    apply IH.
    - intros y Hy. apply H. right. assumption.
    - intros y Hy. apply insert_desc_In in Hy. destruct Hy as [-> | Hy].
      + apply H. left. reflexivity.
      + apply Hacc. assumption. }
  apply G. intros y [].
Qed.

Lemma count_occ_filter (f : str -> bool) (l : list str) (k : str) :
  f k = true ->
  count_occ str_eq_dec (filter f l) k = count_occ str_eq_dec l k.
Proof.
  intros Hk. induction l as [|x l IH]; [reflexivity |].
  cbn [filter count_occ]. destruct (str_eq_dec x k) as [-> | Hne].
  - rewrite Hk. cbn [count_occ].
    destruct (str_eq_dec k k) as [_ | N]; [| contradiction].
    rewrite IH. reflexivity.
  - destruct (f x); [| exact IH]. cbn [count_occ].
    destruct (str_eq_dec x k) as [E | _]; [contradiction | exact IH].
Qed.

(** The keywords are the counted words of the text in the order of
    their first occurrence, sorted by falling number of occurrences
    with a stable sort. *)
Lemma extract_keywords_ranked (U : unicode_db) (text : str) :
  extract_keywords U text
  = sorted_desc (occurrences U text) (first_seen_words U text).
Proof.
  unfold extract_keywords. cbv zeta. fold (tokens U text).
  rewrite word_count_table.
  rewrite (sorted_desc_map
             (fun k => (k, count_occ str_eq_dec
                             (filter counted (tokens U text)) k)) snd).
  rewrite map_map. cbn [fst snd]. rewrite map_id.
  apply sorted_desc_ext. intros w Hw.
  apply set_of_In, filter_In in Hw. destruct Hw as [_ Hc].
  apply count_occ_filter. assumption.
Qed.

(** The sort of line 106: a rearrangement, sorted by falling key, and
    stable. *)
Lemma insert_desc_perm {A} (key : A -> nat) (x : A) (l : list A) :
  Permutation (insert_desc key x l) (x :: l).
Proof.
  induction l as [|y l IH]; [reflexivity |].
  cbn [insert_desc]. destruct (key x <=? key y); [| reflexivity].
  rewrite IH. apply perm_swap.
Qed.

Lemma sorted_desc_perm {A} (key : A -> nat) (xs : list A) :
  Permutation (sorted_desc key xs) xs.
Proof.
  unfold sorted_desc.
  assert (H : forall acc,
             Permutation (fold_left (fun s x => insert_desc key x s) xs acc)
                         (acc ++ xs)).
  { induction xs as [|x xs IH]; intros acc; cbn [fold_left].
    - rewrite app_nil_r. reflexivity.
    - rewrite IH, insert_desc_perm. apply Permutation_middle. }
  apply (H []).
Qed.

Lemma insert_desc_sorted {A} (key : A -> nat) (x : A) (l : list A) :
  StronglySorted (fun a b => key b <= key a) l ->
  StronglySorted (fun a b => key b <= key a) (insert_desc key x l).
Proof.
  induction 1 as [|y l Hs IH Hy]; cbn [insert_desc].
  - repeat constructor.
  - destruct (key x <=? key y) eqn:E.
    + apply Nat.leb_le in E. constructor; [assumption |].
      rewrite Forall_forall in *. intros z Hz.
      apply insert_desc_In in Hz. destruct Hz as [-> | Hz]; auto.
    + apply Nat.leb_gt in E. constructor.
      * constructor; assumption.
      * constructor; [lia |].
        rewrite Forall_forall in *. intros z Hz.
        specialize (Hy z Hz). lia.
Qed.

Lemma filter_key_none {A} (key : A -> nat) (m : nat) (l : list A) :
  Forall (fun z => key z < m) l -> filter (fun a => key a =? m) l = [].
Proof.
  induction 1 as [|z l Hz _ IH]; [reflexivity |].
  cbn [filter]. replace (key z =? m) with false; [exact IH |].
  symmetry. apply Nat.eqb_neq. lia.
Qed.

Lemma insert_desc_stable {A} (key : A -> nat) (x : A) (l : list A) (n : nat) :
  StronglySorted (fun a b => key b <= key a) l ->
  filter (fun a => key a =? n) (insert_desc key x l)
  = filter (fun a => key a =? n) l ++ (if key x =? n then [x] else []).
Proof.
  induction 1 as [|y l Hs IH Hy]; cbn [insert_desc filter].
  - destruct (key x =? n); reflexivity.
  - destruct (key x <=? key y) eqn:E; cbn [filter].
    + rewrite IH. destruct (key y =? n); reflexivity.
    + apply Nat.leb_gt in E.
      destruct (key x =? n) eqn:Ex; [| rewrite app_nil_r; reflexivity].
      apply Nat.eqb_eq in Ex. subst n.
      replace (key y =? key x) with false
        by (symmetry; apply Nat.eqb_neq; lia).
      rewrite filter_key_none; [reflexivity |].
      rewrite Forall_forall in *. intros z Hz. specialize (Hy z Hz). lia.
Qed.

Lemma sorted_desc_sorted_stable {A} (key : A -> nat) (xs : list A) :
  StronglySorted (fun a b => key b <= key a) (sorted_desc key xs)
  /\ forall n, filter (fun a => key a =? n) (sorted_desc key xs)
               = filter (fun a => key a =? n) xs.
Proof.
  unfold sorted_desc.
  assert (H : forall acc,
             StronglySorted (fun a b => key b <= key a) acc ->
             StronglySorted (fun a b => key b <= key a)
               (fold_left (fun s x => insert_desc key x s) xs acc)
             /\ forall n,
                  filter (fun a => key a =? n)
                    (fold_left (fun s x => insert_desc key x s) xs acc)
                  = filter (fun a => key a =? n) acc
                    ++ filter (fun a => key a =? n) xs).
  { induction xs as [|x xs IH]; intros acc Hacc; cbn [fold_left].
    - split; [assumption |]. intros n. rewrite app_nil_r. reflexivity.
    - destruct (IH _ (insert_desc_sorted key x Hacc)) as [Hs Hf].
      split; [assumption |]. intros n.
      rewrite Hf, insert_desc_stable by assumption.
      cbn [filter]. rewrite <- app_assoc.
      destruct (key x =? n); reflexivity. }
  destruct (H [] (SSorted_nil _)) as [Hs Hf].
  split; [assumption | exact Hf].
Qed.

Lemma counted_iff (w : str) :
  counted w = true <-> 2 < length w /\ ~ In w stopwords.
Proof.
  unfold counted.
  rewrite andb_true_iff, Nat.ltb_lt, negb_true_iff, str_in_not_In.
  reflexivity.
Qed.

(** X8. The keywords of a text are exactly its words (the matches of
    [\b\w+\b] in the lowercase text) that have more than 2 characters
    and are not stopwords, each of them once. *)
Theorem keywords_are_the_counted_words (U : unicode_db) (text : str) :
  NoDup (extract_keywords U text)
  /\ forall w,
       In w (extract_keywords U text)
       <-> In w (tokens U text) /\ 2 < length w /\ ~ In w stopwords.
Proof.
  rewrite extract_keywords_ranked.
  pose proof (sorted_desc_perm (occurrences U text)
                (first_seen_words U text)) as P.
  split.
  - apply (Permutation_NoDup (Permutation_sym P)). apply set_of_NoDup.
  - intros w. split.
    + intros Hw. apply (Permutation_in _ P) in Hw.
      apply set_of_In, filter_In in Hw. destruct Hw as [Hin Hc].
      apply counted_iff in Hc. tauto.
    + intros (Hin & Hlen & Hstop).
      apply (Permutation_in _ (Permutation_sym P)).
      apply set_of_In, filter_In. split; [assumption |].
      apply counted_iff. tauto.
Qed.

(** X9. The keywords come by falling number of occurrences in the
    text, and keywords that occur equally often stay in the order in
    which they first occur in the text. *)
Theorem keywords_ranked_by_frequency_ties_first_seen
  (U : unicode_db) (text : str) :
  StronglySorted (fun a b => occurrences U text b <= occurrences U text a)
                 (extract_keywords U text)
  /\ forall n,
       filter (fun w => occurrences U text w =? n) (extract_keywords U text)
       = filter (fun w => occurrences U text w =? n)
                (first_seen_words U text).
Proof.
  rewrite extract_keywords_ranked. apply sorted_desc_sorted_stable.
Qed.

(** The ranking at work: "bola" and "casa" occur twice and come before
    "rua", which occurs once; of the two, "bola" was seen first. *)
Example keywords_ranking_example :
  extract_keywords latin1_db (u "Bola, casa e rua. A casa da bola!")
  = [u "bola"; u "casa"; u "rua"].
Proof. vm_compute. reflexivity. Qed.

(** ** The filtering loop of [create_whatsapp_database] *)

Section FilterProperties.

Variable U : unicode_db.

Lemma lstrip_idem (s : str) : lstrip U (lstrip U s) = lstrip U s.
Proof.
  induction s as [|c s IH]; [reflexivity |].
  cbn [lstrip]. destruct (isspace U c) eqn:E; [exact IH |].
  cbn [lstrip]. rewrite E. reflexivity.
Qed.

Lemma lstrip_snoc (l : str) (c : cp) :
  isspace U c = false -> lstrip U (l ++ [c]) = lstrip U l ++ [c].
Proof.
  intros Hc. induction l as [|x l IH].
  - cbn. rewrite Hc. reflexivity.
  - cbn [app lstrip]. destruct (isspace U x); [exact IH | reflexivity].
Qed.

Lemma rstrip_idem (s : str) : rstrip U (rstrip U s) = rstrip U s.
Proof. unfold rstrip. rewrite rev_involutive, lstrip_idem. reflexivity. Qed.

Lemma lstrip_rstrip (s : str) :
  lstrip U s = s -> lstrip U (rstrip U s) = rstrip U s.
Proof.
  destruct s as [|c t]; [reflexivity |].
  cbn [lstrip]. destruct (isspace U c) eqn:E.
  - intros H. exfalso.
    assert (Hl : forall x, length (lstrip U x) <= length x).
    { induction x as [|y x IHx]; [simpl; lia |].
      cbn [lstrip]. destruct (isspace U y); simpl; lia. }
    specialize (Hl t). rewrite H in Hl. simpl in Hl. lia.
  - intros _. unfold rstrip. cbn [rev].
    rewrite lstrip_snoc by assumption.
    rewrite rev_app_distr. cbn [rev app lstrip]. rewrite E. reflexivity.
Qed.

(** [strip] twice is [strip] once. *)
Lemma strip_idem (s : str) : strip U (strip U s) = strip U s.
Proof.
  unfold strip.
  rewrite lstrip_rstrip by apply lstrip_idem.
  apply rstrip_idem.
Qed.

(** X10. A record is dropped by the filtering loop exactly when the
    classifier flags its stripped text; every text of fewer than 2
    characters is flagged, so the length test of line 274 drops nothing
    more and a one-character message is never kept.  A record that is
    kept gives the author (or "Desconhecido"), the cleaned text, the
    stripped text, the timestamp (or the empty string) and its
    position. *)
Theorem filter_item_keeps_unflagged_texts (i : nat) (item : raw_item) :
  let text := strip U (get (item_message item) []) in
  (length text < 2 -> is_system_message U text = true)
  /\ filter_item U i item
     = if is_system_message U text then None
       else Some {| author := get (item_author item) (u "Desconhecido");
                    message := clean_message U text;
                    original_message := text;
                    timestamp := get (item_timestamp item) [];
                    index := i |}.
Proof.
  cbv zeta. set (text := strip U (get (item_message item) [])).
  assert (Hshort : length text < 2 -> is_system_message U text = true).
  { intros H. unfold is_system_message.
    destruct text as [|c t] eqn:Et; [reflexivity |].
    replace (strip U (c :: t)) with (c :: t)
      by (rewrite <- Et; subst text; symmetry; apply strip_idem).
    apply Nat.ltb_lt in H. rewrite H. reflexivity. }
  split; [exact Hshort |].
  unfold filter_item. fold text.
  destruct (length text <? 1) eqn:E; [| reflexivity].
  apply Nat.ltb_lt in E. rewrite Hshort by lia. reflexivity.
Qed.

Lemma filter_item_index (i : nat) (item : raw_item) (m : msg) :
  filter_item U i item = Some m -> index m = i.
Proof.
  unfold filter_item.
  destruct (length _ <? 1); [discriminate |].
  destruct (is_system_message U _); [discriminate |].
  intros [= <-]. reflexivity.
Qed.

Lemma filter_from_In (i : nat) (data : list raw_item) (m : msg) :
  In m (filter_from U i data)
  <-> exists k item,
        nth_error data k = Some item /\ filter_item U (i + k) item = Some m.
Proof.
  revert i; induction data as [|item data IH]; intros i.
  - split; [intros [] | intros (k & it & H & _)].
    destruct k; discriminate.
  - cbn [filter_from]. split.
    + intros H.
      destruct (filter_item U i item) as [m'|] eqn:E.
      * destruct H as [<- | H].
        -- exists 0, item. rewrite Nat.add_0_r. auto.
        -- apply IH in H. destruct H as (k & it & Hn & Hf).
           exists (S k), it. rewrite <- plus_n_Sm. auto.
      * apply IH in H. destruct H as (k & it & Hn & Hf).
        exists (S k), it. rewrite <- plus_n_Sm. auto.
    + intros (k & it & Hn & Hf). destruct k as [|k].
      * injection Hn as ->. rewrite Nat.add_0_r in Hf. rewrite Hf.
        left. reflexivity.
      * assert (Hin : In m (filter_from U (S i) data)).
        { apply IH. exists k, it. rewrite <- plus_n_Sm in Hf. auto. }
        destruct (filter_item U i item); [right |]; assumption.
Qed.

Lemma filter_from_indices (i : nat) (data : list raw_item) :
  StronglySorted lt (map index (filter_from U i data))
  /\ Forall (fun j => i <= j < i + length data)
            (map index (filter_from U i data)).
Proof.
  revert i; induction data as [|item data IH]; intros i.
  - split; constructor.
  - destruct (IH (S i)) as [Hs Hf]. cbn [filter_from length].
    assert (Hf' : Forall (fun j => i <= j < i + S (length data))
                         (map index (filter_from U (S i) data))).
    { eapply Forall_impl; [| exact Hf]. cbv beta. intros j Hj. lia. }
    destruct (filter_item U i item) as [m|] eqn:E; [| auto].
    apply filter_item_index in E. cbn [map]. rewrite E. split.
    + constructor; [assumption |].
      eapply Forall_impl; [| exact Hf]. cbv beta. intros j Hj. lia.
    + constructor; [lia | assumption].
Qed.

(** X11. The kept messages are the records that pass the filter, in
    the order of the transcript: their positions grow strictly, each
    message is what the filter makes of the record at its position,
    and every record that passes is there. *)
Theorem valid_messages_keep_order_and_position (data : list raw_item) :
  StronglySorted lt (map index (valid_messages U data))
  /\ (forall m,
        In m (valid_messages U data)
        <-> exists item,
              nth_error data (index m) = Some item
              /\ filter_item U (index m) item = Some m)
  /\ length (valid_messages U data) <= length data.
Proof.
  unfold valid_messages.
  destruct (filter_from_indices 0 data) as [Hs Hf].
  split; [assumption |]. split.
  - intros m. rewrite filter_from_In. cbn [Nat.add]. split.
    + intros (k & it & Hn & Hfi).
      rewrite (filter_item_index _ _ Hfi). exists it. auto.
    + intros (it & Hn & Hfi). exists (index m), it. auto.
  - clear Hs Hf. generalize 0.
    induction data as [|item data IH]; intros i; [simpl; lia |].
    cbn [filter_from length]. specialize (IH (S i)).
    destruct (filter_item U i item); simpl; lia.
Qed.

End FilterProperties.

(** ** Cleaning the text *)

(** What [re.sub] gives is made of characters of the text and of the
    replacement. *)
Lemma sub_from_Forall (P : cp -> Prop) (r : rx) (repl : str) :
  Forall P repl ->
  forall (s : str) (prev : option cp) (skip : nat),
    Forall P s -> Forall P (sub_from r repl prev s skip).
Proof.
  intros Hr. induction s as [|c s IH]; intros prev skip Hs; [constructor |].
  inversion Hs as [|? ? Hc Hs']; subst. cbn [sub_from].
  destruct skip as [|k]; [| apply IH; assumption].
  destruct (rmatch r prev (c :: s)) as [|[g [p rest]] ms].
  - constructor; [assumption | apply IH; assumption].
  - destruct (length (c :: s) - length rest) as [|k].
    + constructor; [assumption | apply IH; assumption].
    + apply Forall_app. split; [assumption | apply IH; assumption].
Qed.

(** Replacing every character of a class leaves none of the class
    behind, if the replacement has none. *)
Lemma sub_class_Forall (p : cp -> bool) (repl : str) :
  Forall (fun c => p c = false) repl ->
  forall (s : str) (prev : option cp) (skip : nat),
    Forall (fun c => p c = false) (sub_from (Chr p) repl prev s skip).
Proof.
  intros Hr. induction s as [|c s IH]; intros prev skip; [constructor |].
  cbn [sub_from]. destruct skip as [|k]; [| apply IH].
  cbn [rmatch]. destruct (p c) eqn:E.
  - replace (length (c :: s) - length s) with 1 by (cbn [length]; lia).
    apply Forall_app. split; [assumption | apply IH].
  - constructor; [assumption | apply IH].
Qed.

Lemma run_length_pos (p : cp -> bool) (c : cp) (s : str) :
  p c = true -> exists r, run_length p None (c :: s) = S r.
Proof. intros H. cbn. rewrite H. eexists. reflexivity. Qed.

(** Replacing every run of white space by a space leaves no white space
    but spaces. *)
Lemma sub_spaces_Forall (U : unicode_db) :
  forall (s : str) (prev : option cp) (skip : nat),
    Forall (fun c => isspace U c = false \/ c = chr " ")
           (sub_from (plus (isspace U)) (u " ") prev s skip).
Proof.
  induction s as [|c s IH]; intros prev skip; [constructor |].
  cbn [sub_from]. destruct skip as [|k]; [| apply IH].
  unfold plus at 1. cbn [rmatch].
  destruct (isspace U c) eqn:E.
  - destruct (run_length_pos (isspace U) c s E) as (r & ->).
    cbn [rep_choices]. change (S r <? 1) with false. cbv iota.
    rewrite length_skipn.
    destruct (length (c :: s) - (length (c :: s) - S r)) as [|k] eqn:En.
    + cbn [length] in En. lia.
    + apply Forall_app. split; [| apply IH].
      constructor; [right; reflexivity | constructor].
  - cbn [run_length]. rewrite E. cbn [rep_choices]. 
    change (0 <? 1) with true. cbv iota.
    constructor; [left; assumption | apply IH].
Qed.

Section StripForall.

Variable U : unicode_db.

Lemma lstrip_Forall (P : cp -> Prop) (s : str) :
  Forall P s -> Forall P (lstrip U s).
Proof.
  induction 1 as [|c s Hc Hs IH]; [constructor |].
  cbn [lstrip]. destruct (isspace U c); [assumption |].
  constructor; assumption.
Qed.

Lemma strip_Forall (P : cp -> Prop) (s : str) :
  Forall P s -> Forall P (strip U s).
Proof.
  intros H. unfold strip, rstrip.
  apply Forall_rev, lstrip_Forall, Forall_rev, lstrip_Forall. assumption.
Qed.

(** X12. The cleaned text of [teste.py] has no control character of
    the class of line 185, its only white space is the ordinary space,
    and it neither starts nor ends with white space; the empty text
    stays empty. *)
Theorem clean_message_is_tidy (message_text : str) :
  Forall (fun c => control_char c = false
                   /\ (isspace U c = true -> c = chr " "))
         (clean_message U message_text)
  /\ strip U (clean_message U message_text) = clean_message U message_text
  /\ clean_message U [] = [].
Proof.
  split; [| split; [| reflexivity]].
  - unfold clean_message.
    destruct message_text as [|c0 rest] eqn:Em; [constructor |].
    rewrite <- Em. clear Em c0 rest. cbv zeta.
    set (m1 := re_sub (Chr control_char) [] message_text).
    set (m2 := re_sub (plus (isspace U)) (u " ") m1).
    assert (H1 : Forall (fun c => control_char c = false) m1).
    { apply sub_class_Forall. constructor. }
    assert (H2 : Forall (fun c => control_char c = false
                                  /\ (isspace U c = true -> c = chr " "))
                        m2).
    { apply Forall_and.
      - apply sub_from_Forall; [repeat constructor | assumption].
      - eapply Forall_impl; [| apply sub_spaces_Forall].
        cbv beta. intros c [Hc | Hc] Hs; [congruence | assumption]. }
    apply strip_Forall.
    destruct ((200 <? length m2) && contains m2 (u "http")); [| assumption].
    apply sub_from_Forall; [| assumption].
    repeat (constructor;
            [split; [reflexivity | vm_compute; discriminate] |]).
    constructor.
  - unfold clean_message.
    destruct message_text as [|c0 rest]; [reflexivity |].
    cbv zeta. apply strip_idem.
Qed.

(** X13. The cleaned text of [rag.py] and [app.py] is made of word
    characters, spaces and the punctuation of line 167 only, and it
    neither starts nor ends with white space. *)
Theorem rag_clean_message_alphabet (message_text : str) :
  Forall (fun c => c = chr " "
                   \/ (isspace U c = false
                       /\ (isword U c = true \/ In c Rag.kept_punctuation)))
         (Rag.clean_message U message_text)
  /\ strip U (Rag.clean_message U message_text)
     = Rag.clean_message U message_text.
Proof.
  split; [| apply strip_idem].
  unfold Rag.clean_message. cbv zeta.
  set (m1 := re_sub (Chr (Rag.special_char U)) (u " ") message_text).
  assert (H1 : Forall (fun c => Rag.special_char U c = false) m1).
  { apply sub_class_Forall. repeat constructor. }
  apply strip_Forall.
  assert (H2 : Forall (fun c => Rag.special_char U c = false)
                 (re_sub (plus (isspace U)) (u " ") m1)).
  { apply sub_from_Forall; [repeat constructor | assumption]. }
  pose proof (sub_spaces_Forall U m1 None 0) as H3.
  fold (re_sub (plus (isspace U)) (u " ") m1) in H3.
  pose proof (Forall_and H2 H3) as H.
  eapply Forall_impl; [| exact H]. cbv beta.
  intros c [Hs [Hc | Hc]]; [| left; assumption].
  right. split; [assumption |].
  unfold Rag.special_char in Hs. apply negb_false_iff in Hs.
  rewrite Hc in Hs. rewrite orb_false_r in Hs.
  apply orb_true_iff in Hs. destruct Hs as [Hs | Hs]; [left; assumption |].
  right. apply existsb_exists in Hs. destruct Hs as (x & Hx & E).
  unfold cp_eqb in E. apply N.eqb_eq in E. subst. assumption.
Qed.

End StripForall.

(** ** The two filters on the six shared phrases *)

Section SharedPhrases.

Variable U : unicode_db.

Lemma startswith_app (a w p : str) :
  startswith a p = true -> startswith (a ++ w) p = true.
Proof.
  revert a; induction p as [|y p IH]; intros a H;
    [destruct (a ++ w); reflexivity |].
  destruct a as [|x a]; [discriminate |].
  cbn [app startswith] in *. apply andb_true_iff in H. destruct H as [H1 H2].
  rewrite H1, (IH _ H2). reflexivity.
Qed.

Lemma contains_suffix (x t p : str) :
  startswith t p = true -> contains (x ++ t) p = true.
Proof.
  intros H. induction x as [|c x IH].
  - destruct t; cbn [app contains]; rewrite H; reflexivity.
  - cbn [app contains]. rewrite IH. apply orb_true_r.
Qed.

Lemma lstrip_suffix (s : str) : exists x, s = x ++ lstrip U s.
Proof.
  induction s as [|c s [x IH]]; [exists []; reflexivity |].
  cbn [lstrip]. destruct (isspace U c).
  - exists (c :: x). cbn [app]. rewrite <- IH. reflexivity.
  - exists []. reflexivity.
Qed.

Lemma rstrip_prefix (s : str) : exists w, s = rstrip U s ++ w.
Proof.
  destruct (lstrip_suffix (rev s)) as [x H]. exists (rev x).
  unfold rstrip. rewrite <- rev_app_distr, <- H, rev_involutive. reflexivity.
Qed.

(** A text that starts with a phrase once trimmed holds the phrase. *)
Lemma strip_startswith_contains (s p : str) :
  startswith (strip U s) p = true -> contains s p = true.
Proof.
  intros H. unfold strip in H.
  destruct (lstrip_suffix s) as [x Hx].
  destruct (rstrip_prefix (lstrip U s)) as [w Hw].
  rewrite Hx. apply contains_suffix. rewrite Hw. apply startswith_app.
  assumption.
Qed.

Lemma simple_phrases_incl : incl simple_system_messages system_messages.
Proof.
  intros p Hp. apply str_in_In.
  repeat (destruct Hp as [<- | Hp]; [vm_compute; reflexivity |]).
  destruct Hp.
Qed.

(** X14. On the six phrases that both lists have, the simple mode of
    [rag.py] and [app.py] drops whatever the conservative mode drops: a
    record whose text, lowercased and trimmed, starts with one of them
    is kept by neither loop. *)
Theorem shared_phrase_dropped_by_both_modes
  (i : nat) (item : raw_item) (phrase : str)
  (Hin : In phrase simple_system_messages)
  (Hstart : startswith
              (strip U (lower U (strip U (get (item_message item) []))))
              phrase = true) :
  filter_item U i item = None /\ preprocess_item U i item = None.
Proof.
  split.
  - apply filter_item_drops_system.
    apply (@is_system_message_phrase U _ phrase).
    + apply simple_phrases_incl. assumption.
    + right. assumption.
  - unfold preprocess_item.
    destruct (length (strip U (get (item_message item) [])) <? 3);
      [reflexivity |].
    replace (existsb _ simple_system_messages) with true; [reflexivity |].
    symmetry. apply existsb_exists. exists phrase. split; [assumption |].
    apply strip_startswith_contains. assumption.
Qed.

End SharedPhrases.

(** A run of the theorem: "Image omitted (1)" under "image omitted". *)
Lemma shared_phrase_dropped_by_both_modes_witness :
  In (u "image omitted") simple_system_messages
  /\ startswith
       (strip latin1_db
          (lower latin1_db
             (strip latin1_db
                (get (item_message
                        (item_of "Ana" "Image omitted (1)" "15/03/2023"))
                     []))))
       (u "image omitted") = true
  /\ filter_item latin1_db 7 (item_of "Ana" "Image omitted (1)" "15/03/2023")
     = None
  /\ preprocess_item latin1_db 7
       (item_of "Ana" "Image omitted (1)" "15/03/2023") = None.
Proof.
  assert (Hin : In (u "image omitted") simple_system_messages).
  { apply str_in_In. vm_compute. reflexivity. }
  assert (Hstart :
            startswith
              (strip latin1_db
                 (lower latin1_db
                    (strip latin1_db
                       (get (item_message
                               (item_of "Ana" "Image omitted (1)"
                                        "15/03/2023")) []))))
              (u "image omitted") = true).
  { vm_compute. reflexivity. }
  split; [exact Hin |]. split; [exact Hstart |].
  exact (@shared_phrase_dropped_by_both_modes latin1_db 7
           (item_of "Ana" "Image omitted (1)" "15/03/2023")
           (u "image omitted") Hin Hstart).
Defined.

(** ** Timestamps: what [parse_timestamp] can return *)

Section TimestampRange.

Variable U : unicode_db.

Lemma make_datetime_valid (y mo d h mi s us : Z) (dt : datetime) :
  make_datetime y mo d h mi s us = Ok dt ->
  valid_datetime dt
  /\ dt = {| year := y; month := mo; day := d; hour := h; minute := mi;
             second := s; microsecond := us |}.
Proof.
  unfold make_datetime.
  destruct (_ && _) eqn:E; [| discriminate].
  intros [= <-]. split; [| reflexivity].
  repeat (apply andb_true_iff in E; destruct E as [E ?]).
  unfold valid_datetime. cbn [year month day hour minute second microsecond].
  rewrite ?Z.leb_le in *. lia.
Qed.

Lemma strptime_valid (text fmt : str) (dt : datetime) :
  strptime U text fmt = Ok dt -> valid_datetime dt.
Proof.
  unfold strptime.
  destruct (format_regex U fmt false) as [[r ds]|]; [| discriminate].
  destruct (re_match r text) as [[groups rest]|]; [| discriminate].
  destruct rest; [| discriminate].
  destruct (set_fields U ds groups default_fields) as [f|]; [| discriminate].
  intros H. apply make_datetime_valid in H. apply H.
Qed.

Lemma try_formats_valid (text : str) (fmts : list str) (dt : datetime) :
  try_formats U text fmts = Some dt -> valid_datetime dt.
Proof.
  induction fmts as [|fmt fmts IH]; [discriminate |].
  cbn [try_formats].
  destruct (strptime U text fmt) as [d|[]] eqn:E; [| exact IH].
  intros [= <-]. eapply strptime_valid. eassumption.
Qed.

Lemma fallback_valid (text : str) (dt : datetime) :
  fallback U text = Some dt ->
  valid_datetime dt /\ second dt = 0%Z /\ microsecond dt = 0%Z.
Proof.
  unfold fallback.
  destruct (re_search (date_pattern U) text) as [dg|]; [| discriminate].
  destruct (re_search (time_pattern U) text) as [tg|]; [| discriminate].
  destruct (ints U dg) as [[|a [|b [|c [|x l]]]]|e]; try discriminate.
  destruct (ints U tg) as [[|h [|mi [|y l]]]|e]; try discriminate.
  destruct (make_datetime _ _ _ _ _ _ _) as [d|[]] eqn:E; [| discriminate].
  intros [= <-]. apply make_datetime_valid in E. destruct E as [Hv ->].
  split; [assumption |]. cbn [second microsecond year].
  split; reflexivity.
Qed.

(** X15. Whatever the text, [parse_timestamp] gives nothing or a
    date-time that exists: year 1 to 9999, a month, a day of that month
    (29 February in leap years only), hour up to 23, minute and second
    up to 59.  The empty text gives nothing. *)
Theorem parse_timestamp_gives_real_date_times (timestamp_str : str) :
  match parse_timestamp U timestamp_str with
  | Some dt => valid_datetime dt
  | None => True
  end
  /\ parse_timestamp U [] = None.
Proof.
  split; [| reflexivity].
  unfold parse_timestamp. destruct timestamp_str as [|c rest]; [exact I |].
  destruct (try_formats U (strip U (c :: rest)) formats) as [d|] eqn:E.
  - eapply try_formats_valid. eassumption.
  - destruct (fallback U (c :: rest)) as [d|] eqn:Ef; [| exact I].
    apply fallback_valid in Ef. apply Ef.
Qed.

End TimestampRange.

(** ** Timestamps: a text without digits *)

Section NoDigit.

Variable U : unicode_db.

Lemma no_digit_between (lo hi c : cp) :
  isdigit U c = false -> (48 <= lo)%N -> (hi <= 57)%N ->
  between lo hi c = false.
Proof.
  unfold isdigit, decimal. intros H Hlo Hhi.
  destruct (c <? 256)%N eqn:E.
  - destruct (between 48 57 c) eqn:Eb; [discriminate |].
    unfold between in *.
    apply andb_false_iff. apply andb_false_iff in Eb.
    rewrite !N.leb_gt in *. lia.
  - apply N.ltb_ge in E. unfold between. apply andb_false_iff. right.
    apply N.leb_gt. lia.
Qed.

Lemma no_digit_rng (lo hi : ascii) (c : cp) :
  isdigit U c = false -> (48 <= chr lo)%N -> (chr hi <= 57)%N ->
  rng lo hi c = false.
Proof. apply no_digit_between. Qed.

Lemma no_digit_ch (a : ascii) (c : cp) :
  isdigit U c = false -> (48 <= chr a <= 57)%N -> ch a c = false.
Proof.
  intros H Ha. unfold ch, cp_eqb. apply N.eqb_neq. intros <-.
  pose proof (@no_digit_between (chr a) (chr a) (chr a) H) as Hb.
  unfold between in Hb. rewrite N.leb_refl in Hb.
  specialize (Hb ltac:(lia) ltac:(lia)). discriminate.
Qed.

Lemma needs_digit_Chr (p : cp -> bool) :
  (forall c, isdigit U c = false -> p c = false) -> needs_digit U (Chr p).
Proof.
  intros Hp prev s Hs. cbn [rmatch].
  destruct Hs as [|c s Hc Hs]; [reflexivity |]. rewrite (Hp c Hc). reflexivity.
Qed.

Lemma needs_digit_Rep (p : cp -> bool) (lo : nat) (hi : option nat) :
  (forall c, isdigit U c = false -> p c = false) -> 1 <= lo ->
  needs_digit U (Rep p (S (pred lo)) hi).
Proof.
  intros Hp Hlo prev s Hs. cbn [rmatch].
  assert (run_length p hi s = 0) as ->.
  { destruct Hs as [|c s Hc Hs]; destruct hi as [[|h]|]; cbn [run_length];
      rewrite ?(Hp c Hc); reflexivity. }
  reflexivity.
Qed.

Lemma needs_digit_Seq (a b : rx) :
  needs_digit U a -> needs_digit U (Seq a b).
Proof. intros Ha prev s Hs. cbn [rmatch]. rewrite (Ha prev s Hs). reflexivity. Qed.

Lemma needs_digit_Seq_Chr (p : cp -> bool) (b : rx) :
  needs_digit U b -> needs_digit U (Seq (Chr p) b).
Proof.
  intros Hb prev s Hs. cbn [rmatch].
  destruct Hs as [|c s Hc Hs]; [reflexivity |].
  destruct (p c); [| reflexivity].
  cbn [flat_map]. rewrite (Hb (Some c) s Hs). reflexivity.
Qed.

Lemma needs_digit_Alt (a b : rx) :
  needs_digit U a -> needs_digit U b -> needs_digit U (Alt a b).
Proof.
  intros Ha Hb prev s Hs. cbn [rmatch].
  rewrite (Ha prev s Hs), (Hb prev s Hs). reflexivity.
Qed.

Lemma needs_digit_Grp (a : rx) : needs_digit U a -> needs_digit U (Grp a).
Proof. intros Ha prev s Hs. cbn [rmatch]. rewrite (Ha prev s Hs). reflexivity. Qed.

Ltac digit_class :=
  intros ? ?;
  first [ assumption
        | apply no_digit_rng; [assumption | vm_compute; discriminate ..]
        | apply no_digit_ch; [assumption | split; vm_compute; discriminate] ].

Ltac needs_digit_tac :=
  repeat first
    [ apply needs_digit_Alt
    | apply needs_digit_Seq_Chr; apply needs_digit_Chr; digit_class
    | apply needs_digit_Seq; apply needs_digit_Chr; digit_class
    | apply needs_digit_Chr; digit_class ].

(** Every directive of [strptime] starts with a digit. *)
Lemma directive_needs_digit (d : cp) (r : rx) :
  directive_regex U d = Some r -> needs_digit U r.
Proof.
  unfold directive_regex.
  repeat (destruct (cp_eqb d _);
          [ intros [= <-]; cbn [alts seqs];
            first [ apply (@needs_digit_Rep _ 1); [digit_class | lia]
                  | needs_digit_tac ] |]).
  discriminate.
Qed.

Lemma format_needs_digit (d : cp) (rest : str) (r : rx) (ds : list cp) :
  format_regex U (chr "%" :: d :: rest) false = Some (r, ds) ->
  needs_digit U r.
Proof.
  cbn [format_regex].
  change (cp_eqb (chr "%") (chr "%")) with true. cbv iota.
  destruct (directive_regex U d) as [rd|] eqn:Ed; [| discriminate].
  destruct (format_regex U rest false) as [[r' ds']|]; [| discriminate].
  intros [= <- _].
  apply needs_digit_Seq, needs_digit_Grp. eapply directive_needs_digit.
  eassumption.
Qed.

Lemma formats_start_with_directive :
  Forall (fun fmt => exists d rest, fmt = chr "%" :: d :: rest) formats.
Proof. repeat constructor; eexists; eexists; vm_compute; reflexivity. Qed.

Lemma strptime_no_digit (text fmt : str) :
  no_digit U text -> (exists d rest, fmt = chr "%" :: d :: rest) ->
  strptime U text fmt = Raise ValueError.
Proof.
  intros Ht (d & rest & ->). unfold strptime.
  destruct (format_regex U (chr "%" :: d :: rest) false) as [[r ds]|] eqn:E;
    [| reflexivity].
  apply format_needs_digit in E. unfold re_match.
  rewrite (E None text Ht). reflexivity.
Qed.

Lemma try_formats_no_digit (text : str) (fmts : list str) :
  no_digit U text ->
  Forall (fun fmt => exists d rest, fmt = chr "%" :: d :: rest) fmts ->
  try_formats U text fmts = None.
Proof.
  intros Ht. induction 1 as [|fmt fmts Hf _ IH]; [reflexivity |].
  cbn [try_formats]. rewrite (strptime_no_digit Ht Hf). exact IH.
Qed.

Lemma re_search_no_digit (r : rx) (s : str) (prev : option cp) :
  needs_digit U r -> no_digit U s -> re_search_from r prev s = None.
Proof.
  intros Hr Hs. revert prev.
  induction Hs as [|c s Hc Hs IH]; intros prev.
  - cbn [re_search_from]. rewrite (Hr prev [] (Forall_nil _)). reflexivity.
  - cbn [re_search_from].
    rewrite (Hr prev (c :: s) (Forall_cons c Hc Hs)). apply IH.
Qed.

Lemma date_pattern_needs_digit : needs_digit U (date_pattern U).
Proof.
  unfold date_pattern. cbn [seqs].
  apply needs_digit_Seq, needs_digit_Grp.
  apply (@needs_digit_Rep _ 1); [intros c Hc; exact Hc | lia].
Qed.

(** X16. A text in which no character is a decimal digit is never taken
    for a timestamp: no format parses it and the fallback finds no
    date, so [parse_timestamp] gives nothing (and, as always, raises
    nothing). *)
Theorem parse_timestamp_without_digits_is_none (timestamp_str : str) :
  no_digit U timestamp_str -> parse_timestamp U timestamp_str = None.
Proof.
  intros H. unfold parse_timestamp.
  destruct timestamp_str as [|c rest]; [reflexivity |].
  rewrite try_formats_no_digit;
    [| apply strip_Forall; exact H | exact formats_start_with_directive].
  unfold fallback, re_search.
  rewrite (re_search_no_digit None date_pattern_needs_digit H). reflexivity.
Qed.

End NoDigit.

(** A run of the theorem on the text "ontem às dez". *)
Lemma parse_timestamp_without_digits_is_none_witness :
  no_digit latin1_db (u "ontem às dez")
  /\ parse_timestamp latin1_db (u "ontem às dez") = None.
Proof.
  split.
  - vm_compute. repeat constructor.
  - apply (@parse_timestamp_without_digits_is_none latin1_db).
    vm_compute. repeat constructor.
Defined.

(** ** Documents: numbering, order and sizes *)

Lemma to_uint_not_Nil (n : nat) : Nat.to_uint n <> Decimal.Nil.
Proof.
  assert (H : Nat.to_uint n = Decimal.unorm (Nat.to_uint n)).
  { rewrite <- Unsigned.to_of, Unsigned.of_to. reflexivity. }
  rewrite H. unfold Decimal.unorm.
  destruct (Decimal.nzhead (Nat.to_uint n)); discriminate.
Qed.

(** [str] gives different texts for different numbers. *)
Lemma str_of_nat_inj (a b : nat) : str_of_nat a = str_of_nat b -> a = b.
Proof.
  unfold str_of_nat. intros H.
  assert (Hl : list_ascii_of_string (NilZero.string_of_uint (Nat.to_uint a))
               = list_ascii_of_string (NilZero.string_of_uint (Nat.to_uint b))).
  { assert (Hid : forall l : list ascii, map ascii_of_N (map N_of_ascii l) = l).
    { intros l. rewrite map_map. rewrite <- (map_id l) at 2.
      apply map_ext. exact ascii_N_embedding. }
    apply (f_equal (map ascii_of_N)) in H. rewrite !Hid in H. exact H. }
  apply (f_equal string_of_list_ascii) in Hl.
  rewrite !string_of_list_ascii_of_string in Hl.
  apply (f_equal NilZero.uint_of_string) in Hl.
  rewrite !NilZero.usu in Hl by apply to_uint_not_Nil.
  apply Unsigned.to_uint_inj. congruence.
Qed.

Lemma str_of_nat_seq_NoDup (a n : nat) : NoDup (map str_of_nat (seq a n)).
Proof.
  apply NoDup_map_NoDup_ForallPairs; [| apply seq_NoDup].
  intros x y _ _. apply str_of_nat_inj.
Qed.

Lemma sizes_in_bounds (a w : list nat) :
  Forall (fun n => 5 <= n <= 101) a -> Forall (fun n => 5 <= n <= 40) w ->
  Forall (fun p : doc_type * nat =>
            5 <= snd p <= match fst p with
                          | conversation => 101
                          | chunk => 40
                          end)
         (combine (repeat conversation (length a) ++ repeat chunk (length w))
                  (a ++ w)).
Proof.
  intros Ha Hw. induction Ha as [|n a Hn _ IH]; cbn [length repeat app combine].
  - induction Hw as [|n w Hn _ IH]; cbn [length repeat combine];
      constructor; assumption.
  - constructor; assumption.
Qed.

Lemma sized_documents (docs : list Document) :
  Forall (fun p : doc_type * nat =>
            5 <= snd p <= match fst p with
                          | conversation => 101
                          | chunk => 40
                          end)
         (combine (doc_types docs) (doc_sizes docs)) ->
  Forall (fun d =>
            5 <= message_count (doc_metadata d)
              <= match type (doc_metadata d) with
                 | conversation => 101
                 | chunk => 40
                 end) docs.
Proof.
  unfold doc_types, doc_sizes.
  induction docs as [|d docs IH]; intros H; [constructor |].
  cbn [map combine] in H. inversion H; subst.
  constructor; [assumption | apply IH; assumption].
Qed.

Section DocumentProperties.

Variable U : unicode_db.
Variable list_of_set : list str -> list str.

Lemma add_conversations_spec (conversations : list (list msg))
  (docs : list Document) (n : nat) :
  let st := fold_left (add_conversation U list_of_set) conversations (docs, n) in
  let k := length (long_enough conversations) in
  snd st = n + k
  /\ doc_ids (fst st) = doc_ids docs ++ map str_of_nat (seq n k)
  /\ doc_types (fst st) = doc_types docs ++ repeat conversation k
  /\ doc_sizes (fst st) = doc_sizes docs ++ map (@length msg) (long_enough conversations).
Proof.
  cbv zeta. revert docs n.
  induction conversations as [|c cs IH]; intros docs n.
  - cbn. rewrite !app_nil_r. repeat split; lia.
  - cbn [fold_left long_enough filter]. fold (long_enough cs).
    assert (Hstep : add_conversation U list_of_set (docs, n) c
                    = if length c <? 5 then (docs, n)
                      else (docs ++ [conversation_document U list_of_set n c],
                            S n)) by reflexivity.
    rewrite Hstep. clear Hstep.
    destruct (length c <? 5) eqn:E; cbn [negb].
    + apply IH.
    + destruct (IH (docs ++ [conversation_document U list_of_set n c]) (S n))
        as (H1 & H2 & H3 & H4).
      rewrite H1, H2, H3, H4. cbn [length seq repeat map].
      unfold doc_ids, doc_types, doc_sizes. rewrite !map_app.
      cbn [map conversation_document doc_metadata doc_id type message_count].
      rewrite <- !app_assoc. cbn [app].
      repeat split; lia.
Qed.

Lemma add_chunks_spec (chunks : list (list msg))
  (docs : list Document) (n : nat) :
  let st := fold_left (add_chunk U list_of_set) chunks (docs, n) in
  let k := length chunks in
  snd st = n + k
  /\ doc_ids (fst st) = doc_ids docs ++ map str_of_nat (seq n k)
  /\ doc_types (fst st) = doc_types docs ++ repeat chunk k
  /\ doc_sizes (fst st) = doc_sizes docs ++ map (@length msg) chunks.
Proof.
  cbv zeta. revert docs n.
  induction chunks as [|c cs IH]; intros docs n.
  - cbn. rewrite !app_nil_r. repeat split; lia.
  - cbn [fold_left].
    change (add_chunk U list_of_set (docs, n) c)
      with (docs ++ [chunk_document U list_of_set n c], S n).
    destruct (IH (docs ++ [chunk_document U list_of_set n c]) (S n))
      as (H1 & H2 & H3 & H4).
    rewrite H1, H2, H3, H4. cbn [length seq repeat map].
    unfold doc_ids, doc_types, doc_sizes. rewrite !map_app.
    cbn [map chunk_document doc_metadata doc_id type message_count].
    rewrite <- !app_assoc. cbn [app].
    repeat split; lia.
Qed.

Lemma build_documents_spec (conversations chunks : list (list msg)) :
  let docs := build_documents U list_of_set conversations chunks in
  let k := length (long_enough conversations) in
  doc_ids docs = map str_of_nat (seq 0 (k + length chunks))
  /\ doc_types docs = repeat conversation k ++ repeat chunk (length chunks)
  /\ doc_sizes docs
     = map (@length msg) (long_enough conversations) ++ map (@length msg) chunks.
Proof.
  cbv zeta. unfold build_documents.
  destruct (add_conversations_spec conversations [] 0) as (H1 & H2 & H3 & H4).
  destruct (fold_left (add_conversation U list_of_set) conversations ([], 0))
    as [docs n]. cbn [fst snd] in *.
  destruct (add_chunks_spec chunks docs n) as (_ & G2 & G3 & G4).
  rewrite G2, G3, G4, H2, H3, H4, H1. cbn [doc_ids doc_types doc_sizes map app].
  rewrite seq_app, map_app. repeat split; reflexivity.
Qed.

(** X17. The documents are numbered as they are appended: the
    identifiers are the decimal texts of 0, 1, 2, ... in order, no two
    documents share one, the conversation documents (one for every
    conversation of at least 5 messages) come before the chunk
    documents (one for every chunk), and each records the number of
    messages of its conversation or chunk. *)
Theorem documents_numbered_in_order (conversations chunks : list (list msg)) :
  let docs := build_documents U list_of_set conversations chunks in
  doc_ids docs = map str_of_nat (seq 0 (length docs))
  /\ NoDup (doc_ids docs)
  /\ doc_types docs
     = repeat conversation (length (long_enough conversations))
       ++ repeat chunk (length chunks)
  /\ doc_sizes docs
     = map (@length msg) (long_enough conversations) ++ map (@length msg) chunks.
Proof.
  cbv zeta.
  destruct (build_documents_spec conversations chunks) as (H1 & H2 & H3).
  assert (Hlen : length (build_documents U list_of_set conversations chunks)
                 = length (long_enough conversations) + length chunks).
  { apply (f_equal (@length _)) in H1. unfold doc_ids in H1.
    rewrite !length_map, length_seq in H1. exact H1. }
  rewrite Hlen. repeat split; try assumption.
  rewrite H1. apply str_of_nat_seq_NoDup.
Qed.

(** Every segment of the detector passes the test of line 321. *)
Lemma segments_long_enough (messages : list msg) :
  long_enough (detect_conversation_boundaries_conservative U messages)
  = detect_conversation_boundaries_conservative U messages.
Proof.
  assert (H : Forall (fun c : list msg => 5 <= length c)
                (detect_conversation_boundaries_conservative U messages)).
  { rewrite detect_final.
    destruct (detector_run_inv U messages) as (_ & Hf & _).
    destruct (detector_run U messages) as [convs cur]. cbn [fst snd] in *.
    destruct (5 <=? length cur) eqn:E; [| assumption].
    apply Nat.leb_le in E. apply Forall_app. split; [assumption |].
    constructor; [assumption | constructor]. }
  unfold long_enough. induction H as [|c cs Hc _ IH]; [reflexivity |].
  cbn [filter]. apply Nat.ltb_ge in Hc. rewrite Hc. cbn [negb].
  f_equal. exact IH.
Qed.

Lemma pipeline_documents_spec (data : list raw_item) :
  let valid := valid_messages U data in
  let segments := detect_conversation_boundaries_conservative U valid in
  let windows := map (fun k => slice valid (25 * k) (25 * k + 40))
                     (seq 0 (window_count (length valid))) in
  let docs := pipeline_documents U list_of_set data in
  doc_types docs
  = repeat conversation (length segments) ++ repeat chunk (length windows)
  /\ doc_sizes docs = map (@length msg) segments ++ map (@length msg) windows.
Proof.
  cbv zeta. unfold pipeline_documents. rewrite overlap_windows_eq.
  destruct (build_documents_spec
              (detect_conversation_boundaries_conservative U (valid_messages U data))
              (map (fun k => slice (valid_messages U data) (25 * k) (25 * k + 40))
                   (seq 0 (window_count (length (valid_messages U data))))))
    as (_ & H2 & H3).
  rewrite segments_long_enough in H2, H3. split; assumption.
Qed.

(** Fewer than five valid messages: no segment, no window. *)
Lemma pipeline_documents_short (data : list raw_item) :
  length (valid_messages U data) < 5 -> pipeline_documents U list_of_set data = [].
Proof.
  intros Hlt.
  destruct (pipeline_documents_spec data) as (H2 & _).
  set (valid := valid_messages U data) in *.
  set (segments := detect_conversation_boundaries_conservative U valid) in *.
  set (docs := pipeline_documents U list_of_set data) in *.
  rewrite length_map, length_seq in H2.
  assert (Hs0 : length segments = 0).
  { pose proof (detector_run_inv U valid) as (Hc & Hf & _).
    subst segments. rewrite detect_final.
    destruct (detector_run U valid) as [convs cur]. cbn [fst snd] in *.
    assert (Hconvs : Forall (fun c : list msg => 5 <= length c <= length c) convs).
    { rewrite Forall_forall in *. intros c Hin. split; auto. }
    assert (Hcv : convs = []).
    { destruct convs as [|c convs]; [reflexivity |].
      inversion Hf; subst. rewrite <- Hc in Hlt. cbn [concat] in Hlt.
      rewrite !length_app in Hlt. lia. }
    subst convs. cbn [concat app] in Hc. subst cur.
    apply Nat.leb_gt in Hlt. rewrite Hlt. reflexivity. }
  assert (Hw0 : window_count (length valid) = 0).
  { unfold window_count. apply Nat.ltb_lt in Hlt. rewrite Hlt. reflexivity. }
  rewrite Hs0, Hw0 in H2. cbn [repeat app] in H2.
  unfold doc_types in H2. destruct docs; [reflexivity | discriminate].
Qed.

(** X18. In a run on a transcript, every segment found by the boundary
    detector and every window of the overlap windower becomes exactly
    one document, segments first: the test of line 321 never skips a
    segment.  A conversation document records the size of its segment
    and the chunk document of window [k] records [min 40 (N - 25 k)]
    for [N] valid messages, so every document covers at least 5
    messages, a conversation document at most 101 and a chunk
    document at most 40; fewer than 5 valid messages give no document
    at all. *)
Theorem run_builds_one_document_per_segment_and_window (data : list raw_item) :
  let valid := valid_messages U data in
  let segments := detect_conversation_boundaries_conservative U valid in
  let docs := pipeline_documents U list_of_set data in
  doc_types docs
  = repeat conversation (length segments)
    ++ repeat chunk (window_count (length valid))
  /\ doc_sizes docs
     = map (@length msg) segments
       ++ map (fun k => Nat.min 40 (length valid - 25 * k))
              (seq 0 (window_count (length valid)))
  /\ Forall (fun d =>
               5 <= message_count (doc_metadata d)
                 <= match type (doc_metadata d) with
                    | conversation => 101
                    | chunk => 40
                    end) docs
  /\ (length valid < 5 -> docs = []).
Proof.
  cbv zeta.
  destruct (pipeline_documents_spec data) as (H2 & H3).
  set (valid := valid_messages U data) in *.
  set (segments := detect_conversation_boundaries_conservative U valid) in *.
  set (docs := pipeline_documents U list_of_set data) in *.
  rewrite length_map, length_seq in H2.
  assert (Hseg : Forall (fun c : list msg => 5 <= length c <= 101) segments).
  { subst segments. rewrite detect_final.
    destruct (detector_run_inv U valid) as (_ & Hf & _).
    destruct (detector_run_cap U valid) as (Hl & Hcap).
    destruct (detector_run U valid) as [convs cur]. cbn [fst snd] in *.
    assert (Hconvs : Forall (fun c => 5 <= length c <= 101) convs).
    { rewrite Forall_forall in *. intros c Hin. split; auto. }
    destruct (5 <=? length cur) eqn:E; [| assumption].
    apply Nat.leb_le in E. apply Forall_app. split; [assumption |].
    constructor; [lia | constructor]. }
  assert (Hwin : Forall (fun c : list msg => 5 <= length c <= 40)
                   (map (fun k => slice valid (25 * k) (25 * k + 40))
                        (seq 0 (window_count (length valid))))).
  { apply Forall_forall. intros c Hin. apply in_map_iff in Hin.
    destruct Hin as (k & <- & Hk). apply in_seq in Hk.
    rewrite slice_length.
    pose proof (window_kept_iff (length valid) k) as E.
    replace (k <? window_count (length valid)) with true in E
      by (symmetry; apply Nat.ltb_lt; lia).
    apply Nat.leb_le in E. lia. }
  split; [exact H2 |]. split.
  { rewrite H3, map_map. f_equal. apply map_ext. intros k.
    rewrite slice_length. f_equal. lia. }
  split.
  - apply sized_documents. rewrite H2, H3.
    set (ws := map (fun k => slice valid (25 * k) (25 * k + 40))
                   (seq 0 (window_count (length valid)))) in *.
    assert (Hlw : window_count (length valid) = length (map (@length msg) ws))
      by (subst ws; rewrite !length_map, length_seq; reflexivity).
    rewrite Hlw. rewrite <- (length_map (@length msg) segments) at 1.
    apply sizes_in_bounds; apply Forall_map; assumption.
  - apply pipeline_documents_short.
Qed.

End DocumentProperties.

(** ** The whole run on empty and very short transcripts *)

Section RunEdges.

Variable U : unicode_db.
Variable list_of_set : list str -> list str.
Variable S_ E : Type.
Variable from_documents : list Document -> result E S_.
Variable add_documents : S_ -> list Document -> S_ * option E.


End RunEdges.


(** ** The simple mode of [rag.py] *)

Lemma py_last_In {A} (l : list A) (x : A) : py_last l = Some x -> In x l.
Proof. unfold py_last. apply nth_error_In. Qed.

Lemma py_last_cons_Some {A} (x : A) (l : list A) : exists y, py_last (x :: l) = Some y.
Proof.
  destruct (py_last (x :: l)) as [y|] eqn:E; [exists y; reflexivity |].
  unfold py_last in E. apply nth_error_None in E. cbn [length] in E. lia.
Qed.

Section RagSimple.

Variable U : unicode_db.
Variable list_of_set : list str -> list str.

(** A window that is not empty always gives a document. *)
Lemma make_document_ok (w : list msg) (id : nat) :
  w <> [] ->
  exists d, Rag.make_document U list_of_set w id = Ok d
            /\ describes list_of_set d w
            /\ Rag.conversation_id d = str_of_nat id.
Proof.
  destruct w as [|first rest]; [congruence |]. intros _.
  destruct (py_last_cons_Some first rest) as [last El].
  unfold Rag.make_document, Rag.create_conversation_context. rewrite El.
  eexists. split; [reflexivity |]. unfold describes. rewrite El.
  cbn [Rag.message_count Rag.start_time Rag.end_time Rag.participants
       Rag.conversation_id]. repeat split; reflexivity.
Qed.

Lemma rag_step_skip (st : Rag.state) (i : nat) (item : raw_item) :
  preprocess_item U i item = None -> Rag.step U list_of_set st i item = Ok st.
Proof. intros H. unfold Rag.step. rewrite H. reflexivity. Qed.

Lemma rag_step_inv (st : Rag.state) (seen : list msg) (i : nat)
  (item : raw_item) (m : msg) :
  rag_loop_inv list_of_set st seen ->
  preprocess_item U i item = Some m ->
  exists st', Rag.step U list_of_set st i item = Ok st'
              /\ rag_loop_inv list_of_set st' (seen ++ [m]).
Proof.
  intros (windows & Hseen & Hdocs & Hids & Hnext & Hfull & Hlast & Htimed & Hnone)
         Hm.
  unfold Rag.step. rewrite Hm. unfold Rag.start_new.
  assert (Hkeep :
    (Rag.last_timestamp st = None \/ Rag.last_timestamp st = Some []
     \/ length (Rag.conversation_window st) <= 20) ->
    rag_loop_inv list_of_set
      {| Rag.documents := Rag.documents st;
         Rag.conversation_window := Rag.conversation_window st ++ [m];
         Rag.last_timestamp := Some (timestamp m);
         Rag.next_id := Rag.next_id st |} (seen ++ [m])).
  { intros Hcase. exists windows.
    cbn [Rag.documents Rag.conversation_window Rag.last_timestamp Rag.next_id].
    rewrite py_last_snoc. cbn [option_map].
    repeat split; try assumption.
    - rewrite Hseen, app_assoc. reflexivity.
    - apply Forall_app in H. destruct H as [Hs _].
      apply Htimed. exact Hs.
    - rewrite length_app. cbn [length].
      apply Forall_app in H. destruct H as [Hs _].
      destruct (Htimed Hs) as (_ & Hle & Hne).
      destruct Hcase as [Hc | [Hc | Hc]]; [| | lia].
      + rewrite Hlast in Hc. destruct seen as [|x seen'].
        * apply (f_equal (@length _)) in Hseen.
          rewrite length_app in Hseen. cbn [length] in Hseen. lia.
        * destruct (py_last_cons_Some x seen') as [y Ey].
          rewrite Ey in Hc. discriminate.
      + rewrite Hlast in Hc.
        destruct (py_last seen) as [y|] eqn:Ey; [| discriminate].
        apply py_last_In in Ey. rewrite Forall_forall in Hs.
        specialize (Hs y Ey). cbn [option_map] in Hc. congruence.
    - intros _ Hc. destruct (Rag.conversation_window st); discriminate.
    - intros H. apply Forall_app in H. destruct H as [Hs _].
      apply Hnone. exact Hs. }
  destruct (Rag.last_timestamp st) as [[|c rest]|] eqn:El.
  - eexists. split; [reflexivity |]. apply Hkeep. auto.
  - unfold Rag.should_start_new_conversation.
    destruct (20 <? length (Rag.conversation_window st)) eqn:E20.
    + apply Nat.ltb_lt in E20.
      assert (E3 : (3 <=? length (Rag.conversation_window st)) = true)
        by (apply Nat.leb_le; lia).
      rewrite E3.
      assert (Hne : Rag.conversation_window st <> [])
        by (destruct (Rag.conversation_window st); [simpl in E20; lia | discriminate]).
      destruct (@make_document_ok _ (Rag.next_id st) Hne) as (d & Hd & Hdesc & Hid).
      rewrite Hd. eexists. split; [reflexivity |].
      exists (windows ++ [Rag.conversation_window st]).
      cbn [Rag.documents Rag.conversation_window Rag.last_timestamp Rag.next_id].
      rewrite py_last_snoc. cbn [option_map].
      assert (Hlastin : exists y, In y seen /\ timestamp y = c :: rest).
      { destruct (py_last seen) as [y|] eqn:Ey; [| discriminate].
        exists y. split; [apply py_last_In; exact Ey |].
        cbn [option_map] in Hlast. congruence. }
      repeat split.
      * rewrite concat_app. cbn [concat]. rewrite app_nil_r, Hseen.
        reflexivity.
      * apply Forall2_app; [assumption | constructor; [assumption | constructor]].
      * rewrite map_app, length_app, Hids. cbn [length map].
        rewrite Nat.add_1_r, seq_S, map_app. cbn [map Nat.add].
        rewrite Hid, Hnext. reflexivity.
      * rewrite length_app. cbn [length]. lia.
      * apply Forall_app. split; [assumption | constructor; [lia | constructor]].
      * apply Forall_app in H. destruct H as [Hs _].
        destruct (Htimed Hs) as (Hw & Hle & _).
        apply Forall_app. split; [assumption |].
        constructor; [lia | constructor].
      * cbn [length app]. lia.
      * intros _. discriminate.
      * intros H. apply Forall_app in H. destruct H as [Hs _].
        destruct Hlastin as (y & Hy & Ety).
        rewrite Forall_forall in Hs. specialize (Hs y Hy). congruence.
    + apply Nat.ltb_ge in E20. eexists. split; [reflexivity |].
      apply Hkeep. right. right. lia.
  - eexists. split; [reflexivity |]. apply Hkeep. auto.
Qed.

Lemma rag_loop_spec (data : list raw_item) (i : nat) (st : Rag.state)
  (seen : list msg) :
  rag_loop_inv list_of_set st seen ->
  exists st', Rag.loop_from U list_of_set i data st = Ok st'
              /\ rag_loop_inv list_of_set st' (seen ++ simple_kept_from U i data).
Proof.
  revert i st seen. induction data as [|item data IH]; intros i st seen Hinv.
  - exists st. cbn [Rag.loop_from simple_kept_from]. rewrite app_nil_r.
    split; [reflexivity | assumption].
  - cbn [Rag.loop_from simple_kept_from].
    destruct (preprocess_item U i item) as [m|] eqn:Em.
    + destruct (@rag_step_inv st seen i item m Hinv Em) as (st1 & Hst & Hinv1).
      rewrite Hst. destruct (IH (S i) st1 _ Hinv1) as (st' & Hl & Hinv').
      exists st'. split; [assumption |].
      rewrite <- app_assoc in Hinv'. exact Hinv'.
    + rewrite (@rag_step_skip st i item Em). apply IH. assumption.
Qed.

Lemma rag_initial_inv : rag_loop_inv list_of_set Rag.initial [].
Proof.
  exists []. cbn. repeat split; auto; try constructor; try lia; congruence.
Qed.

(** The run written out: the state the loop ends in, and the documents
    returned. *)
Lemma rag_preprocess_spec (data : list raw_item) :
  exists st d,
    rag_loop_inv list_of_set st (simple_kept U data)
    /\ Forall2 (describes list_of_set) d
               (closing_window (Rag.conversation_window st))
    /\ map Rag.conversation_id d
       = map str_of_nat
           (seq (Rag.next_id st)
                (length (closing_window (Rag.conversation_window st))))
    /\ Rag.preprocess_whatsapp_data U list_of_set data
       = Ok (Rag.documents st ++ d).
Proof.
  destruct (@rag_loop_spec data 0 _ _ rag_initial_inv) as (st & Hl & Hinv).
  cbn [app] in Hinv. fold (simple_kept U data) in Hinv.
  unfold Rag.preprocess_whatsapp_data. rewrite Hl. unfold closing_window.
  destruct (3 <=? length (Rag.conversation_window st)) eqn:E3.
  - assert (Hne : Rag.conversation_window st <> []).
    { apply Nat.leb_le in E3.
      destruct (Rag.conversation_window st); [simpl in E3; lia | discriminate]. }
    destruct (@make_document_ok _ (Rag.next_id st) Hne) as (d & Hd & Hdesc & Hid).
    exists st, [d]. rewrite E3, Hd.
    repeat split; try assumption.
    + constructor; [assumption | constructor].
    + cbn. rewrite Hid. reflexivity.
  - exists st, []. rewrite E3, app_nil_r.
    repeat split; try assumption; constructor.
Qed.


Lemma describes_sizes (docs : list Rag.Document) (windows : list (list msg)) :
  Forall2 (describes list_of_set) docs windows ->
  map Rag.message_count docs = map (@length msg) windows.
Proof.
  induction 1 as [|d w docs windows Hd _ IH]; [reflexivity |].
  cbn [map]. destruct Hd as [-> _]. rewrite IH. reflexivity.
Qed.

Lemma all_21 (windows : list (list msg)) :
  Forall (fun w => length w = 21) windows ->
  map (@length msg) windows = repeat 21 (length windows)
  /\ length (concat windows) = 21 * length windows.
Proof.
  induction 1 as [|w windows Hw _ [IH1 IH2]]; [split; reflexivity |].
  cbn [map length repeat concat]. rewrite length_app, Hw, IH1, IH2.
  split; [reflexivity | lia].
Qed.

(** X21. When every kept message has a timestamp, the simple mode of
    [rag.py] cuts the kept messages into windows of exactly 21
    ([should_start_new_conversation] looks at the size only): with
    [N] kept messages there are [(N - 1) / 21] documents of 21
    messages, followed by one for the remaining messages when they
    are at least 3. *)
Theorem rag_windows_of_21_with_timestamps (data : list raw_item) :
  Forall (fun m => timestamp m <> []) (simple_kept U data) ->
  let N := length (simple_kept U data) in
  let q := (N - 1) / 21 in
  exists docs,
    Rag.preprocess_whatsapp_data U list_of_set data = Ok docs
    /\ map Rag.message_count docs
       = repeat 21 q ++ (if 3 <=? N - 21 * q then [N - 21 * q] else []).
Proof.
  intros Htimes. cbv zeta.
  destruct (rag_preprocess_spec data) as (st & d & Hinv & Hd & _ & Hrun).
  destruct Hinv as (windows & Hseen & Hdocs & _ & _ & _ & _ & Htimed & _).
  destruct (Htimed Htimes) as (H21 & Hle & Hne).
  destruct (all_21 H21) as (Hmap & Hlen).
  exists (Rag.documents st ++ d). split; [assumption |].
  rewrite map_app, (describes_sizes Hdocs), (describes_sizes Hd), Hmap.
  assert (HN : length (simple_kept U data)
               = 21 * length windows + length (Rag.conversation_window st))
    by (rewrite Hseen, length_app, Hlen; reflexivity).
  assert (Hq : (length (simple_kept U data) - 1) / 21 = length windows).
  { destruct (simple_kept U data) as [|m0 kept0] eqn:Ek.
    - cbn [length] in HN. assert (length windows = 0) by lia.
      rewrite H. reflexivity.
    - assert (Hc : Rag.conversation_window st <> []) by (apply Hne; discriminate).
      assert (1 <= length (Rag.conversation_window st))
        by (destruct (Rag.conversation_window st); [congruence | simpl; lia]).
      rewrite HN.
      divmod (21 * length windows + length (Rag.conversation_window st) - 1) 21.
      nia. }
  rewrite Hq.
  replace (length (simple_kept U data) - 21 * length windows)
    with (length (Rag.conversation_window st)) by lia.
  unfold closing_window.
  destruct (3 <=? length (Rag.conversation_window st)); reflexivity.
Qed.

(** X22. When no kept message has a timestamp (the key is missing or
    its text is empty), the simple mode of [rag.py] never starts a new
    conversation: all the kept messages, however many, end up in one
    document, or in none when there are fewer than 3. *)
Theorem rag_never_splits_without_timestamps (data : list raw_item) :
  Forall (fun m => timestamp m = []) (simple_kept U data) ->
  exists docs,
    Rag.preprocess_whatsapp_data U list_of_set data = Ok docs
    /\ map Rag.message_count docs
       = if 3 <=? length (simple_kept U data)
         then [length (simple_kept U data)] else [].
Proof.
  intros Htimes.
  destruct (rag_preprocess_spec data) as (st & d & Hinv & Hd & _ & Hrun).
  destruct Hinv as (windows & Hseen & Hdocs & _ & _ & _ & _ & _ & Hnone).
  specialize (Hnone Htimes). subst windows.
  inversion Hdocs as [Hnil|]. cbn [concat app] in Hseen.
  exists (Rag.documents st ++ d). split; [assumption |].
  rewrite <- Hnil. cbn [app]. rewrite (describes_sizes Hd), Hseen.
  unfold closing_window.
  destruct (3 <=? length (Rag.conversation_window st)); reflexivity.
Qed.

End RagSimple.

(** A run of the theorem: sixty kept messages with a timestamp give
    documents of 21, 21 and 18 messages. *)
Lemma rag_windows_of_21_with_timestamps_witness :
  Forall (fun m => timestamp m <> []) (simple_kept latin1_db sixty_timed_items)
  /\ exists docs,
       Rag.preprocess_whatsapp_data latin1_db set_of sixty_timed_items = Ok docs
       /\ map Rag.message_count docs = [21; 21; 18].
Proof.
  assert (H : Forall (fun m => timestamp m <> [])
                (simple_kept latin1_db sixty_timed_items))
    by (vm_compute; repeat constructor; discriminate).
  split; [exact H |].
  exact (@rag_windows_of_21_with_timestamps latin1_db set_of
           sixty_timed_items H).
Defined.

(** A run of the theorem: the same sixty messages without a timestamp
    give one document of 60 messages. *)
Lemma rag_never_splits_without_timestamps_witness :
  Forall (fun m => timestamp m = []) (simple_kept latin1_db sixty_untimed_items)
  /\ exists docs,
       Rag.preprocess_whatsapp_data latin1_db set_of sixty_untimed_items = Ok docs
       /\ map Rag.message_count docs = [60].
Proof.
  assert (H : Forall (fun m => timestamp m = [])
                (simple_kept latin1_db sixty_untimed_items))
    by (vm_compute; repeat constructor).
  split; [exact H |].
  exact (@rag_never_splits_without_timestamps latin1_db set_of
           sixty_untimed_items H).
Defined.

(** ** The simple mode of [app.py] *)

Section AppSimple.

Variable U : unicode_db.
Variable list_of_set : list str -> list str.









End AppSimple.

(** On twenty-six records of which Caio's only one is dropped: 25 kept
    messages give documents of 10, 10 and 5, none with Caio, who is
    returned among the participants. *)
Example app_dropped_author_is_a_participant :
  match App.preprocess_whatsapp_data latin1_db set_of twenty_six_items with
  | Ok (docs, people) =>
      people = [u "Ana"; u "Caio"; u "Bia"]
      /\ map Rag.message_count docs = [10; 10; 5]
      /\ map Rag.participants docs = [u "Ana"; u "Ana, Bia"; u "Bia"]
  | Raise _ => False
  end.
Proof. vm_compute. repeat split; reflexivity. Qed.
